(** * ada-scanner: consolidation and collection pipelines

    A shallow embedding of [utils/combine-sheets.js] (merge of the per-page
    spreadsheets, duplicate detection, positional removal) and of the
    page-visit bodies and result writers of [tests/ada.test.ts],
    [tests/at-scale.test.ts] and [tests/tfg.test.ts].

    JavaScript arrays are lists, [Array.prototype.forEach] is a left-to-right
    fold that also passes the index, the [Set] of seen indices is a [gset],
    [splice (i, 1)] is positional [delete].  The spreadsheet codec (SheetJS)
    is an external collaborator: a sheet is the list of its rows. *)

From Stdlib Require Import Ascii String ZArith Lia.
From stdpp Require Import base list gmap strings sorting.


(** ** ViolationRecord *)

(** One spreadsheet row ([interface DataRow] of the test files).  A cell that
    is missing from the sheet is a property that is missing from the object
    built by [sheet_to_json]; reading it yields [undefined], which is [None]
    here.  *)
Record DataRow := mkRow {
  page : string;
  device : string;
  id : string;
  impact : option string;
  tags : string;
  description : string;
  help : string;
  helpUrl : string;
  html : string;
  target : option string;
  failureSummary : option string
}.

#[global] Instance DataRow_eq_dec : EqDecision DataRow.
Proof. solve_decision. Defined.

(** [a === b] on values that are strings or [undefined]. *)
Definition strictEq (a b : option string) : bool := bool_decide (a = b).

(** ** Console *)

(** One constructor per [console.log] / [console.error] call site of
    [combine-sheets.js], with the values that are passed to it. *)
Inductive LogEntry :=
| ErrorReadingDirectory (err : string)
| LogSheetData (rows : list DataRow)
| LogDuplicateFound (innerIndex : nat)
| LogOuterElement (outerElement : DataRow)
| LogInnerElement (innerElement : DataRow)
| LogDeleting (element : nat)
| LogProcessingComplete
| LogMasterList (n : nat)
| LogWorkList (n : nat).

(** ** Array.prototype.forEach *)

Fixpoint forEach_from {A St : Type} (f : A → nat → St → St)
    (index : nat) (l : list A) (st : St) : St :=
  match l with
  | [] => st
  | x :: rest => forEach_from f (S index) rest (f x index st)
  end.

Definition forEach {A St : Type} (f : A → nat → St → St) (l : list A) (st : St) : St :=
  forEach_from f 0 l st.

(** ** Stage 2: duplicate detection (combine-sheets.js, lines 157-209) *)

(** The state touched by the two nested callbacks: the local array
    [indicesToDelete] and the console. *)
Definition DetectState : Type := list nat * list LogEntry.

(** Body of the inner callback. *)
Definition innerCallback (outerElement : DataRow) (outerIndex : nat)
    (innerElement : DataRow) (innerIndex : nat) (st : DetectState) : DetectState :=
  if (outerIndex <? innerIndex)%nat then
    if strictEq (target outerElement) (target innerElement) then
      if strictEq (failureSummary outerElement) (failureSummary innerElement) then
        (st.1 ++ [innerIndex],
         st.2 ++ [LogDuplicateFound innerIndex;
                  LogOuterElement outerElement;
                  LogInnerElement innerElement])
      else st
    else st
  else st.

(** Body of the outer callback: one full pass over the same array. *)
Definition outerCallback (sheetData : list DataRow)
    (outerElement : DataRow) (outerIndex : nat) (st : DetectState) : DetectState :=
  forEach (innerCallback outerElement outerIndex) sheetData st.

Definition detect (sheetData : list DataRow) (console : list LogEntry) : DetectState :=
  forEach (outerCallback sheetData) sheetData ([], console).

(** The array [indicesToDelete] when the two loops are done. *)
Definition indicesToDelete (sheetData : list DataRow) : list nat :=
  (detect sheetData []).1.

(** ** Stage 3A: removal of repeated indices (lines 222-241) *)

(** [indicesToDelete.filter (...)] with the [Set] [seen] threaded through the
    calls of the predicate. *)
Fixpoint filterSeen (seen : gset nat) (l : list nat) : list nat :=
  match l with
  | [] => []
  | element :: rest =>
      if decide (element ∈ seen) then filterSeen seen rest
      else element :: filterSeen ({[element]} ∪ seen) rest
  end.

Definition uniqueArray (indices : list nat) : list nat := filterSeen ∅ indices.

(** ** Stage 3B: descending sort and splice (lines 261-274) *)

(** The order induced by the comparator [(a, b) => b - a]: [a] goes before
    [b] when [b - a <= 0].  The script also sorts [indicesToDelete] in place;
    that array is not read again, [uniqueArray] being a fresh array built by
    [filter]. *)
Definition descending (a b : nat) : Prop := b ≤ a.

#[global] Instance descending_dec : RelDecision descending.
Proof. intros a b. unfold descending. apply _. Defined.

Definition sortDescending (l : list nat) : list nat := merge_sort descending l.

(** [sheetData.splice (element, 1)] *)
Definition splice1 (element : nat) (sheetData : list DataRow) : list DataRow :=
  delete element sheetData.

Definition deleteCallback (element : nat) (index : nat)
    (st : list DataRow * list LogEntry) : list DataRow * list LogEntry :=
  (splice1 element st.1, st.2 ++ [LogDeleting element]).

(** Stages 2 and 3 on the loaded rows: the rows that are left and the
    console. *)
Definition dedupStages (sheetData : list DataRow) (console : list LogEntry)
    : list DataRow * list LogEntry :=
  let d := detect sheetData console in
  let unique := sortDescending (uniqueArray d.1) in
  forEach deleteCallback unique (sheetData, d.2).

(** The duplicate-removal pass as a function of the working sequence. *)
Definition removeDuplicates (sheetData : list DataRow) : list DataRow :=
  (dedupStages sheetData []).1.

(** ** The de-duplication key, as the specification words it *)

Definition key (r : DataRow) : option string * option string :=
  (target r, failureSummary r).

(** Two records are duplicates when the two nested comparisons of
    [innerCallback] both succeed. *)
Definition isDuplicate (a b : DataRow) : bool :=
  strictEq (target a) (target b) && strictEq (failureSummary a) (failureSummary b).

(** Reference formulation (the "key to first-seen index" strategy of the
    specification): walk the sequence once and keep a record exactly when no
    earlier record carries its key.  [earlier] holds the records already
    walked over. *)
Fixpoint keepFirstFrom (earlier rows : list DataRow) : list DataRow :=
  match rows with
  | [] => []
  | r :: rest =>
      if existsb (λ e, isDuplicate e r) earlier
      then keepFirstFrom (earlier ++ [r]) rest
      else r :: keepFirstFrom (earlier ++ [r]) rest
  end.

Definition keepFirstOccurrences (rows : list DataRow) : list DataRow :=
  keepFirstFrom [] rows.

(** The records of a sequence found at the positions that satisfy [p],
    positions counted from [index]. *)
Fixpoint keepFrom {A : Type} (p : nat → bool) (index : nat) (l : list A) : list A :=
  match l with
  | [] => []
  | x :: rest =>
      if p index then x :: keepFrom p (S index) rest
      else keepFrom p (S index) rest
  end.

(** Number of records of [rows] in the equivalence class of [r]. *)
Definition classSize (r : DataRow) (rows : list DataRow) : nat :=
  length (filter (λ x, key x = key r) rows).

(** Position [j] of [rows] holds the first record of its equivalence class:
    no record at a smaller position carries the same key. *)
Definition firstOfClass (rows : list DataRow) (j : nat) : Prop :=
  ∃ r, rows !! j = Some r
       ∧ ∀ i r', i < j → rows !! i = Some r' → key r' ≠ key r.

(** * The consolidation script (utils/combine-sheets.js) *)

(** A worksheet is the list of its rows, a workbook the list of its sheets
    (as [book_append_sheet] builds it). *)
Definition Sheet : Type := list DataRow.
Definition Workbook : Type := list Sheet.

(** What [read (readFileSync (filePath))] does for one path: either one of
    the two calls throws, or a workbook is returned. *)
Inductive ReadResult :=
| ReadThrows (why : string)
| ReadOk (workbook : Workbook).

(** [XLSX.utils.sheet_to_json (workbook.Sheets[workbook.SheetNames[0]])]: the
    rows of the first sheet; no rows when the workbook has no sheet. *)
Definition firstSheetRows (workbook : Workbook) : list DataRow :=
  match workbook with
  | [] => []
  | sheet :: _ => sheet
  end.

(** The module-level variables, the files written so far and the console. *)
Record Script := mkScript {
  sheetData : list DataRow;
  wb : Workbook;
  finalBook : Workbook;
  written : list (string * Workbook);
  console : list LogEntry
}.

Definition initialScript : Script := mkScript [] [] [] [] [].

Definition masterPath : string := "./spreadsheets/master-list.xlsx".
Definition workPath : string := "./spreadsheets/work-list.xlsx".

(** The promise returned by a call of the [async] function; a [throw] in its
    body settles the promise as rejected and does not reach the caller. *)
Inductive Promise :=
| Fulfilled
| Rejected (reason : string).

(** The variable [lastIndex] holds a number until the callback replaces it by
    [true]. *)
Inductive LastIndex :=
| LastNumber (n : Z)
| LastTrue.

(** [lastIndex === index] *)
Definition lastIndexIs (lastIndex : LastIndex) (index : nat) : bool :=
  match lastIndex with
  | LastNumber n => bool_decide (n = Z.of_nat index)
  | LastTrue => false
  end.

(** [lastIndex === true] *)
Definition lastIndexIsTrue (lastIndex : LastIndex) : bool :=
  match lastIndex with
  | LastNumber _ => false
  | LastTrue => true
  end.

(** appendDataToSheet (lines 52-85). *)
Definition appendDataToSheet (readSheet : string → ReadResult)
    (filePath : string) (lastIndex : LastIndex) (st : Script) : Script * Promise :=
  match readSheet filePath with
  | ReadThrows why => (st, Rejected why)
  | ReadOk workbook =>
      let currentData := firstSheetRows workbook in
      let data := sheetData st ++ currentData in
      let ws : Sheet := data in
      if lastIndexIsTrue lastIndex then
        let wb' := wb st ++ [ws] in
        (mkScript data wb' (finalBook st)
           (written st ++ [(masterPath, wb')]) (console st), Fulfilled)
      else
        (mkScript data (wb st) (finalBook st) (written st) (console st), Fulfilled)
  end.

(** *** path.extname *)

(** External (Node's [path.extname], POSIX flavour): the scan from the right
    end of the path that finds the last dot of the last path segment. *)
Record ExtScan := mkExtScan {
  startDot : Z;
  startPart : Z;
  endPos : Z;
  matchedSlash : bool;
  preDotState : Z
}.

Definition charAt (path : string) (i : nat) : ascii :=
  match String.get i path with
  | Some c => c
  | None => "000"%char
  end.

Fixpoint extnameScan (path : string) (n : nat) (s : ExtScan) : ExtScan :=
  match n with
  | 0 => s
  | S i =>
      let code := charAt path i in
      if bool_decide (code = "/"%char) then
        if negb (matchedSlash s) then
          mkExtScan (startDot s) (Z.of_nat i + 1) (endPos s) (matchedSlash s) (preDotState s)
        else extnameScan path i s
      else
        let s1 :=
          if bool_decide (endPos s = (-1)%Z)
          then mkExtScan (startDot s) (startPart s) (Z.of_nat i + 1) false (preDotState s)
          else s in
        let s2 :=
          if bool_decide (code = "."%char) then
            if bool_decide (startDot s1 = (-1)%Z)
            then mkExtScan (Z.of_nat i) (startPart s1) (endPos s1) (matchedSlash s1) (preDotState s1)
            else if negb (bool_decide (preDotState s1 = 1%Z))
            then mkExtScan (startDot s1) (startPart s1) (endPos s1) (matchedSlash s1) 1
            else s1
          else if negb (bool_decide (startDot s1 = (-1)%Z))
          then mkExtScan (startDot s1) (startPart s1) (endPos s1) (matchedSlash s1) (-1)
          else s1 in
        extnameScan path i s2
  end.

Definition extname (path : string) : string :=
  let s := extnameScan path (String.length path) (mkExtScan (-1) 0 (-1) true 0) in
  if bool_decide (startDot s = (-1)%Z)
     || bool_decide (endPos s = (-1)%Z)
     || bool_decide (preDotState s = 0%Z)
     || (bool_decide (preDotState s = 1%Z)
         && bool_decide (startDot s = (endPos s - 1)%Z)
         && bool_decide (startDot s = (startPart s + 1)%Z))
  then ""
  else String.substring (Z.to_nat (startDot s)) (Z.to_nat (endPos s - startDot s)) path.

(** [path.join (directoryPath, file)] for a directory entry: the directory
    prefix, normalised, followed by the entry name. *)
Definition joinDirectory (file : string) : string :=
  String.append "spreadsheets/" file.

(** *** The callback of [fs.readdir] *)

(** Body of [files.forEach ((file, index) => ...)]; the state is the script
    together with the local variable [lastIndex].  The promise returned by
    [appendDataToSheet] is dropped, as in the source. *)
Definition fileCallback (readSheet : string → ReadResult)
    (file : string) (index : nat) (st : Script * LastIndex) : Script * LastIndex :=
  let lastIndex := if lastIndexIs st.2 index then LastTrue else st.2 in
  if bool_decide (extname file = ".xlsx") then
    ((appendDataToSheet readSheet (joinDirectory file) lastIndex st.1).1, lastIndex)
  else (st.1, lastIndex).

Inductive Outcome :=
| Completed
| ReturnedOnDirectoryError
| ThrewTypeError.

Definition logTo (st : Script) (entries : list LogEntry) : Script :=
  mkScript (sheetData st) (wb st) (finalBook st) (written st) (console st ++ entries).

(** Stage 1: the loop over the directory entries. *)
Definition loadAll (readSheet : string → ReadResult) (files : list string)
    (st : Script) : Script :=
  (forEach (fileCallback readSheet) files
     (st, LastNumber (Z.of_nat (length files) - 1))).1.

(** Stages 2 to 4 on the script state. *)
Definition dedupAndWrite (st : Script) : Script :=
  let st1 := logTo st [LogSheetData (sheetData st)] in
  let r := dedupStages (sheetData st1) (console st1) in
  let workList : Sheet := r.1 in
  let finalBook' := finalBook st1 ++ [workList] in
  mkScript r.1 (wb st1) finalBook'
    (written st1 ++ [(workPath, finalBook')])
    (r.2 ++ [LogProcessingComplete; LogMasterList (length r.1); LogWorkList (length r.1)]).

(** The whole callback (lines 108-297).  [files] is [None] when the runtime
    passes [undefined]; [files.length] is evaluated before [err] is looked
    at. *)
Definition readdirCallback (readSheet : string → ReadResult)
    (err : option string) (files : option (list string)) (st : Script)
    : Script * Outcome :=
  match files with
  | None => (st, ThrewTypeError)
  | Some files =>
      match err with
      | Some e => (logTo st [ErrorReadingDirectory e], ReturnedOnDirectoryError)
      | None => (dedupAndWrite (loadAll readSheet files st), Completed)
      end
  end.

(** One run of the script on a directory listing that succeeded. *)
Definition runScript (readSheet : string → ReadResult) (files : list string) : Script :=
  (readdirCallback readSheet None (Some files) initialScript).1.

(** The workbook last written at [path], if any (a later write replaces an
    earlier one). *)
Definition fileAt (path : string) (writes : list (string * Workbook)) : option Workbook :=
  snd <$> last (filter (λ w, w.1 = path) writes).

(** The rows that the entries of a listing contribute: those of the first
    sheet of every entry that passes the extension test and can be read. *)
Definition rowsOfEntry (readSheet : string → ReadResult) (file : string) : list DataRow :=
  if bool_decide (extname file = ".xlsx") then
    match readSheet (joinDirectory file) with
    | ReadThrows _ => []
    | ReadOk workbook => firstSheetRows workbook
    end
  else [].


(** The file system seen by a later run: a path written by an earlier run
    (the script writes [./spreadsheets/...], [path.join] yields
    [spreadsheets/...]) reads back as the workbook last written there. *)
Definition diskAfter (readSheet : string → ReadResult)
    (writes : list (string * Workbook)) (path : string) : ReadResult :=
  match fileAt (String.append "./" path) writes with
  | Some workbook => ReadOk workbook
  | None => readSheet path
  end.

(** * The collection suites (tests/*.test.ts) *)

(** ** The scan result consumed by the page visits *)

Module Axe.
(** One affected node of a violation. *)
Record NodeResult := mkNode {
  html : string;
  target : list string;
  failureSummary : option string
}.

(** One entry of [accessibilityScanResults.violations]. *)
Record Result := mkResult {
  id : string;
  impact : option string;
  tags : list string;
  description : string;
  help : string;
  helpUrl : string;
  nodes : list NodeResult
}.
End Axe.

(** [parts.join (", ")] *)
Definition join (parts : list string) : string := String.concat ", " parts.

(** The object literal [dataRow] built for one node of one violation. *)
Definition dataRow (slug userAgent : string) (element : Axe.Result)
    (node : Axe.NodeResult) : DataRow :=
  mkRow slug userAgent (Axe.id element) (Axe.impact element)
    (join (Axe.tags element)) (Axe.description element) (Axe.help element)
    (Axe.helpUrl element) (Axe.html node) (Some (join (Axe.target node)))
    (Axe.failureSummary node).

(** [element[1].nodes.forEach ((node) => { ...; sheetData.push (dataRow) })] *)
Definition pushNodes (slug userAgent : string) (element : Axe.Result)
    (sheetData : list DataRow) : list DataRow :=
  forEach (λ node (_ : nat) sd, sd ++ [dataRow slug userAgent element node])
    (Axe.nodes element) sheetData.

(** The two nested loops of the ada and tfg suites. *)
Definition pushViolations (slug userAgent : string) (violations : list Axe.Result)
    (sheetData : list DataRow) : list DataRow :=
  forEach (λ element (_ : nat) sd, pushNodes slug userAgent element sd)
    violations sheetData.

(** The records that one scan flattens to: one per (violation, node) pair. *)
Definition flatten (slug userAgent : string) (violations : list Axe.Result)
    : list DataRow :=
  flat_map (λ element, map (dataRow slug userAgent element) (Axe.nodes element))
    violations.

(** [expect (accessibilityScanResults.violations).toEqual ([])] *)
Inductive TestResult := Passed | Failed.

Definition expectNoViolations (violations : list Axe.Result) : TestResult :=
  match violations with
  | [] => Passed
  | _ => Failed
  end.

(** [slug || "home"]: the empty string is falsy. *)
Definition orHome (slug : string) : string :=
  if bool_decide (slug = "") then "home" else slug.

(** One call of a result writer: the path handed to [XLSX.writeFile] and the
    rows of the sheet "full_data". *)
Definition FileWrite : Type := string * list DataRow.

(** ** Characters and the two regular expressions *)

Definition codeOf (c : ascii) : nat := nat_of_ascii c.

(** Membership in [a-z0-9] under the flag [i]. *)
Definition isAlnum (c : ascii) : bool :=
  let n := codeOf c in
  ((48 <=? n) && (n <=? 57) || (65 <=? n) && (n <=? 90) || (97 <=? n) && (n <=? 122))%nat.

(** [\s] on code units below 256: tab, line feed, vertical tab, form feed,
    carriage return, space and no-break space. *)
Definition isSpace (c : ascii) : bool :=
  let n := codeOf c in
  ((9 <=? n) && (n <=? 13) || (n =? 32) || (n =? 160))%nat.

(** [slug.replace (/[^a-z0-9]/gi, '_')] *)
Fixpoint sanitize (slug : string) : string :=
  match slug with
  | EmptyString => EmptyString
  | String c rest => String (if isAlnum c then c else "_"%char) (sanitize rest)
  end.

(** [browserName.replace (/\s+/g, '_')]: every maximal run of white space
    becomes one underscore.  [inRun] tells that the previous character was
    white space. *)
Fixpoint replaceSpaceRuns (inRun : bool) (s : string) : string :=
  match s with
  | EmptyString => EmptyString
  | String c rest =>
      if isSpace c then
        if inRun then replaceSpaceRuns true rest
        else String "_"%char (replaceSpaceRuns true rest)
      else String c (replaceSpaceRuns false rest)
  end.

(** The part of a written path between the directory ["spreadsheets/"] and
    the suffix [".xlsx"]. *)
Definition stemOf (path : string) : string :=
  String.substring 13 (String.length path - 13 - 5) path.

(** [^[A-Za-z0-9_]+$] *)
Fixpoint allSafe (s : string) : bool :=
  match s with
  | EmptyString => true
  | String c rest => (isAlnum c || bool_decide (c = "_"%char)) && allSafe rest
  end.

Definition matchesSafeName (s : string) : bool :=
  negb (bool_decide (s = "")) && allSafe s.

Fixpoint hasSeparator (s : string) : bool :=
  match s with
  | EmptyString => false
  | String c rest => bool_decide (c = "/"%char) || hasSeparator rest
  end.

(** ** tests/ada.test.ts *)

Module Ada.
(** The module-level array [sheetData] and the files written. *)
Record World := mkWorld {
  sheetData : list DataRow;
  files : list FileWrite
}.

Definition initial : World := mkWorld [] [].

(** sheetWriter (lines 95-100): no parameter for the rows, the global array
    is written; the slug goes into the path as it is. *)
Definition sheetWriter (slug : string) (w : World) : World :=
  mkWorld (sheetData w)
    (files w ++ [(String.append "spreadsheets/" (String.append slug ".xlsx"), sheetData w)]).

(** Body of one test (lines 113-186), after the scan has returned. *)
Definition visit (slug userAgent : string) (violations : list Axe.Result)
    (w : World) : World * TestResult :=
  let w1 := mkWorld (pushViolations slug userAgent violations (sheetData w)) (files w) in
  let w2 :=
    if (0 <? length (sheetData w1))%nat then sheetWriter (orHome slug) w1 else w1 in
  (w2, expectNoViolations violations).

(** Page visits run one after the other by one instance of the module. *)
Fixpoint visits (pages : list (string * string * list Axe.Result)) (w : World)
    : World :=
  match pages with
  | [] => w
  | (slug, userAgent, violations) :: rest =>
      visits rest (visit slug userAgent violations w).1
  end.
End Ada.

(** ** tests/at-scale.test.ts *)

Module AtScale.
Record World := mkWorld {
  sheetData : list DataRow;
  files : list FileWrite
}.

Definition initial : World := mkWorld [] [].

(** sheetWriter (lines 86-111), the write succeeding. *)
Definition sheetWriter (slug : string) (data : list DataRow) (w : World) : World :=
  mkWorld (sheetData w)
    (files w ++ [(String.append "spreadsheets/" (String.append (sanitize slug) ".xlsx"), data)]).

(** Body of the callback over the violations (lines 157-196); the loop
    variable [slug] is assigned in it, so it is part of the state. *)
Definition violationCallback (userAgent : string) (element : Axe.Result)
    (_ : nat) (st : string * World) : string * World :=
  let slug := st.1 in
  let w := mkWorld (pushNodes slug userAgent element (sheetData st.2)) (files st.2) in
  let '(slug, w) :=
    if bool_decide (slug = "loc/warwick-pizza/")
    then ("warwick-pizza", sheetWriter "warwick-pizza" (sheetData w) w)
    else (slug, w) in
  let '(slug, w) :=
    if bool_decide (slug = "loc/catering-inquiry")
    then ("catering-inquiry", sheetWriter "catering-inquiry" (sheetData w) w)
    else (slug, w) in
  if bool_decide (slug = "") then (slug, w)
  else (slug, sheetWriter slug (sheetData w) w).

Definition visit (slug userAgent : string) (violations : list Axe.Result)
    (w : World) : World * TestResult :=
  ((forEach (violationCallback userAgent) violations (slug, w)).2,
   expectNoViolations violations).
End AtScale.

(** ** tests/tfg.test.ts *)

Module Tfg.
(** This suite has no module-level array; only the files written remain
    after a visit. *)
Record World := mkWorld {
  files : list FileWrite
}.

Definition initial : World := mkWorld [].

(** sheetWriter (lines 146-171), the write succeeding. *)
Definition sheetWriter (slug : string) (data : list DataRow) (w : World) : World :=
  mkWorld
    (files w ++ [(String.append "spreadsheets/" (String.append (sanitize slug) ".xlsx"), data)]).

(** [testInfo.project.name || 'unknown'] *)
Definition browserNameOf (projectName : string) : string :=
  if bool_decide (projectName = "") then "unknown" else projectName.

(** The destination name handed to [sheetWriter] (lines 256-262). *)
Definition destination (slug projectName : string) : string :=
  let filenameSlug := orHome slug in
  let filenameSlug :=
    if bool_decide (filenameSlug = "loc/warwick-pizza/") then "warwick-pizza"
    else if bool_decide (filenameSlug = "loc/catering-inquiry") then "catering-inquiry"
    else filenameSlug in
  String.append filenameSlug
    (String.append "_" (replaceSpaceRuns false (browserNameOf projectName))).

(** Body of one test (lines 184-278), after the scan has returned. *)
Definition visit (slug userAgent projectName : string)
    (violations : list Axe.Result) (w : World) : World * TestResult :=
  let sheetData := pushViolations slug userAgent violations [] in
  let w1 :=
    if (0 <? length sheetData)%nat
    then sheetWriter (destination slug projectName) sheetData w
    else w in
  (w1, expectNoViolations violations).

Fixpoint visits (pages : list (string * string * string * list Axe.Result))
    (w : World) : World :=
  match pages with
  | [] => w
  | (slug, userAgent, projectName, violations) :: rest =>
      visits rest (visit slug userAgent projectName violations w).1
  end.
End Tfg.

(** * Notions used to state further properties *)

(** The last entry of a listing passes the extension test and can be read:
    the one call of [appendDataToSheet] that receives [lastIndex === true]
    takes place and gets to its end. *)
Definition lastEntryLoads (readSheet : string → ReadResult) (files : list string) : bool :=
  match last files with
  | None => false
  | Some file =>
      bool_decide (extname file = ".xlsx")
      && match readSheet (joinDirectory file) with
         | ReadThrows _ => false
         | ReadOk _ => true
         end
  end.


(** The file, if any, that one page visit of the tfg suite writes. *)
Definition tfgFileOf (p : string * string * string * list Axe.Result)
    : list FileWrite :=
  let '(slug, userAgent, projectName, violations) := p in
  if bool_decide (flatten slug userAgent violations = []) then []
  else [(String.append "spreadsheets/"
           (String.append (sanitize (Tfg.destination slug projectName)) ".xlsx"),
         flatten slug userAgent violations)].

Fixpoint noSpace (s : string) : bool :=
  match s with
  | EmptyString => true
  | String c rest => negb (isSpace c) && noSpace rest
  end.

(** ** tests/tfg.test.ts: the start-up banner *)

Module TfgStartup.
(** The lines of the banner, by what they report. *)
Inductive Line :=
| Starting
| Testing (pages browsers : nat)
| TotalTests (n : nat)
| BaseURL (url : string)
| Rule.

(** The flag [startupPrinted] and the console. *)
Record State := mkState {
  startupPrinted : bool;
  console : list Line
}.

Definition initial : State := mkState false [].

(** printStartupInfo (lines 90-99), for a suite of [pages] slugs. *)
Definition printStartupInfo (pages : nat) (st : State) : State :=
  if negb (startupPrinted st) then
    mkState true
      (console st ++ [Starting; Testing pages 2; TotalTests (pages * 2);
                      BaseURL "https://thefranchisegroup.com"; Rule])
  else st.

(** The calls made by the tests that one instance of the module runs. *)
Fixpoint calls (n pages : nat) (st : State) : State :=
  match n with
  | 0 => st
  | S m => calls m pages (printStartupInfo pages st)
  end.
End TfgStartup.

(** * Sample data *)

Definition rowA : DataRow :=
  mkRow "a" "d" "r" None "t" "x" "h" "u" "<a>" (Some "t1") (Some "s1").
Definition rowB : DataRow :=
  mkRow "b" "d" "r" None "t" "x" "h" "u" "<b>" (Some "t1") (Some "s1").
Definition rowC : DataRow :=
  mkRow "c" "d" "r" None "t" "x" "h" "u" "<c>" (Some "t2") (Some "s1").

(** A second record of the class of [rowC], and a record of a class of its
    own. *)
Definition rowD : DataRow :=
  mkRow "d" "d" "r" None "t" "x" "h" "u" "<d>" (Some "t2") (Some "s1").
Definition rowE : DataRow :=
  mkRow "e" "d" "r" None "t" "x" "h" "u" "<e>" (Some "t3") (Some "s3").

(** Rows read from sheets in which the cells of [target] and
    [failureSummary] are empty. *)
Definition rowNoKey1 : DataRow :=
  mkRow "p1" "d" "r" None "t" "x" "h" "u" "<p>" None None.
Definition rowNoKey2 : DataRow :=
  mkRow "p2" "d" "r" None "t" "x" "h" "u" "<q>" None None.

(** A result directory with one readable spreadsheet. *)
Definition diskHome (path : string) : ReadResult :=
  if bool_decide (path = "spreadsheets/home.xlsx") then ReadOk [[rowA; rowB; rowC]]
  else ReadThrows "ENOENT".


(** The directory of [diskHome] as a second run finds it, the outputs of a
    first run on [home.xlsx] in place. *)
Definition diskSecondRun : string → ReadResult :=
  diskAfter diskHome (written (runScript diskHome ["home.xlsx"])).

Definition listingSecondRun : list string :=
  ["home.xlsx"; "master-list.xlsx"; "work-list.xlsx"].

(** Two scan results of one violation with one node each. *)
Definition userAgent : string := "Mozilla/5.0".

Definition violationImageAlt : Axe.Result :=
  Axe.mkResult "image-alt" (Some "critical") ["cat.text-alternatives"; "wcag2a"]
    "Images must have alternative text" "Ensure images have alternative text"
    "https://dequeuniversity.com/rules/axe/image-alt"
    [Axe.mkNode "<img src=a.png>" ["main"; "img"] (Some "Fix any of the following")].

Definition violationLabel : Axe.Result :=
  Axe.mkResult "label" (Some "critical") ["cat.forms"; "wcag2a"]
    "Form elements must have labels" "Ensure every form element has a label"
    "https://dequeuniversity.com/rules/axe/label"
    [Axe.mkNode "<input>" ["form"; "input"] (Some "Fix any of the following")].

Example removeDuplicates_ABC : removeDuplicates [rowA; rowB; rowC] = [rowA; rowC].
Proof. vm_compute. reflexivity. Qed.

Example indices_AAA : indicesToDelete [rowA; rowA; rowA] = [1; 2; 2].
Proof. vm_compute. reflexivity. Qed.

Example unique_AAA : sortDescending (uniqueArray [1; 2; 2]) = [2; 1].
Proof. vm_compute. reflexivity. Qed.

(** * Properties of the duplicate-removal pass *)

Section ForEach.
Context {A St : Type}.

(** A projection of the state that each call of the callback updates on its
    own is updated on its own by the whole loop. *)
Lemma forEach_from_proj {T : Type} (π : St → T) (f : A → nat → St → St) :
  (∀ x i s s', π s = π s' → π (f x i s) = π (f x i s')) →
  ∀ l i s s', π s = π s' → π (forEach_from f i l s) = π (forEach_from f i l s').
Proof.
  intros Hf l. induction l as [|x l IH]; intros i s s' Hs; simpl; [done|].
  apply IH. by apply Hf.
Qed.

Lemma forEach_from_app (f : A → nat → St → St) l1 l2 i s :
  forEach_from f i (l1 ++ l2) s
  = forEach_from f (i + length l1) l2 (forEach_from f i l1 s).
Proof.
  revert i s. induction l1 as [|x l1 IH]; intros i s; simpl.
  - by rewrite Nat.add_0_r.
  - rewrite IH. f_equal. lia.
Qed.
End ForEach.

Lemma strictEq_true a b : strictEq a b = true ↔ a = b.
Proof. unfold strictEq. apply bool_decide_eq_true. Qed.

Lemma isDuplicate_key a b : isDuplicate a b = true ↔ key a = key b.
Proof.
  unfold isDuplicate, key. rewrite andb_true_iff, !strictEq_true.
  split; [intros [-> ->]; done | intros [= -> ->]; done].
Qed.

Lemma isDuplicate_false a b : isDuplicate a b = false ↔ key a ≠ key b.
Proof.
  rewrite <- isDuplicate_key. destruct (isDuplicate a b); split; congruence.
Qed.

(** What one call of the inner callback does to [indicesToDelete]. *)
Lemma innerCallback_indices o oi x xi st :
  (innerCallback o oi x xi st).1
  = if (oi <? xi)%nat && isDuplicate o x then st.1 ++ [xi] else st.1.
Proof.
  unfold innerCallback, isDuplicate.
  destruct (oi <? xi)%nat; simpl; [|done].
  destruct (strictEq (target o) (target x)); simpl; [|done].
  by destruct (strictEq (failureSummary o) (failureSummary x)).
Qed.

Lemma inner_loop_elem_of o oi l : ∀ k st j,
  j ∈ (forEach_from (innerCallback o oi) k l st).1
  ↔ j ∈ st.1 ∨ (∃ x, l !! (j - k) = Some x ∧ k ≤ j ∧ oi < j ∧ isDuplicate o x = true).
Proof.
  induction l as [|x l IH]; intros k st j; simpl.
  - split; [by left|]. intros [?|(x & Hx & _)]; [done|]. by rewrite lookup_nil in Hx.
  - rewrite IH, innerCallback_indices. split.
    + intros [Hj|(y & Hy & Hk & Hoi & Hd)].
      * destruct ((oi <? k)%nat && isDuplicate o x) eqn:E; [|by left].
        apply elem_of_app in Hj as [Hj|Hj]; [by left|].
        apply list_elem_of_singleton in Hj as ->. right.
        apply andb_true_iff in E as [E1 E2]. apply Nat.ltb_lt in E1.
        exists x. rewrite Nat.sub_diag. done.
      * right. exists y. replace (j - k) with (S (j - S k)) by lia.
        simpl. repeat split; [done|lia|done|done].
    + intros [Hj|(y & Hy & Hk & Hoi & Hd)].
      * left. destruct ((oi <? k)%nat && isDuplicate o x); [|done].
        apply elem_of_app. by left.
      * destruct (decide (j = k)) as [->|Hne].
        -- rewrite Nat.sub_diag in Hy. simpl in Hy. injection Hy as ->.
           left. apply Nat.ltb_lt in Hoi. rewrite Hoi, Hd. simpl.
           apply elem_of_app. right. by apply list_elem_of_singleton.
        -- right. exists y. replace (j - k) with (S (j - S k)) in Hy by lia.
           simpl in Hy. repeat split; [done|lia|done|done].
Qed.

Lemma outer_loop_elem_of whole l : ∀ k st j,
  j ∈ (forEach_from (outerCallback whole) k l st).1
  ↔ j ∈ st.1 ∨ (∃ i o x, l !! i = Some o ∧ whole !! j = Some x
                          ∧ k + i < j ∧ isDuplicate o x = true).
Proof.
  induction l as [|o l IH]; intros k st j; simpl.
  - split; [by left|]. intros [?|(i & o & x & Ho & _)]; [done|].
    by rewrite lookup_nil in Ho.
  - rewrite IH. unfold outerCallback, forEach. rewrite inner_loop_elem_of.
    rewrite Nat.sub_0_r. split.
    + intros [[Hj|(x & Hx & _ & Hlt & Hd)]|(i & o' & x & Ho & Hx & Hlt & Hd)].
      * by left.
      * right. exists 0, o, x. simpl. repeat split; [done|lia|done].
      * right. exists (S i), o', x. simpl. repeat split; [done|done|lia|done].
    + intros [Hj|(i & o' & x & Ho & Hx & Hlt & Hd)]; [by left; left|].
      destruct i as [|i]; simpl in Ho.
      * injection Ho as ->. left. right. exists x. repeat split; [done|lia|lia|done].
      * right. exists i, o', x. repeat split; [done|done|lia|done].
Qed.

(** Position [j] is marked exactly when an earlier record carries the key of
    the record at [j]. *)
Lemma elem_of_indicesToDelete (rows : list DataRow) j :
  j ∈ indicesToDelete rows
  ↔ ∃ i o x, rows !! i = Some o ∧ rows !! j = Some x ∧ i < j ∧ key o = key x.
Proof.
  unfold indicesToDelete, detect, forEach. rewrite outer_loop_elem_of. simpl.
  split.
  - intros [Hj|(i & o & x & ? & ? & ? & Hd)]; [by apply elem_of_nil in Hj|].
    exists i, o, x. by rewrite <- isDuplicate_key.
  - intros (i & o & x & ? & ? & ? & Hd). right.
    exists i, o, x. by rewrite isDuplicate_key.
Qed.

(** The console plays no part in what is marked. *)
Lemma detect_indices rows console :
  (detect rows console).1 = indicesToDelete rows.
Proof.
  unfold indicesToDelete, detect, forEach.
  apply (forEach_from_proj fst); [|done].
  intros o oi s s' Hs. unfold outerCallback, forEach.
  apply (forEach_from_proj fst); [|done].
  intros x xi t t' Ht. rewrite !innerCallback_indices. by rewrite Ht.
Qed.

(** ** Stage 3A *)

Lemma filterSeen_spec l : ∀ seen,
  NoDup (filterSeen seen l)
  ∧ ∀ j, j ∈ filterSeen seen l ↔ j ∈ l ∧ j ∉ seen.
Proof.
  induction l as [|e l IH]; intros seen; simpl.
  - split; [constructor|]. intros j. split; [by intros ?%elem_of_nil|].
    by intros [?%elem_of_nil _].
  - destruct (decide (e ∈ seen)) as [He|He].
    + destruct (IH seen) as [Hnd Hin]. split; [done|].
      intros j. rewrite Hin, elem_of_cons. split; [naive_solver|].
      intros [[->|?] ?]; done.
    + destruct (IH ({[e]} ∪ seen)) as [Hnd Hin]. split.
      * constructor; [|done]. rewrite Hin. set_solver.
      * intros j. rewrite !elem_of_cons, Hin. split.
        -- intros [->|[? ?]]; [by split; [left|]|]. split; [by right|set_solver].
        -- intros [[->|?] ?]; [by left|].
           destruct (decide (j = e)) as [->|?]; [by left|]. right. set_solver.
Qed.

Lemma uniqueArray_NoDup l : NoDup (uniqueArray l).
Proof. apply filterSeen_spec. Qed.

Lemma elem_of_uniqueArray l j : j ∈ uniqueArray l ↔ j ∈ l.
Proof.
  unfold uniqueArray. rewrite (proj2 (filterSeen_spec l ∅)). set_solver.
Qed.

(** ** Stage 3B *)

#[local] Instance descending_total : Total descending.
Proof. intros a b. unfold descending. lia. Qed.

#[local] Instance descending_trans : Transitive descending.
Proof. intros a b c. unfold descending. lia. Qed.

Lemma sortDescending_Permutation l : sortDescending l ≡ₚ l.
Proof. apply merge_sort_Permutation. Qed.

Lemma elem_of_sortDescending l j : j ∈ sortDescending l ↔ j ∈ l.
Proof. by rewrite sortDescending_Permutation. Qed.

(** A sorted list without repetition goes strictly down. *)
Lemma sortDescending_strict l :
  NoDup l → StronglySorted (λ a b, b < a) (sortDescending l).
Proof.
  intros Hnd.
  assert (NoDup (sortDescending l)) as Hnd' by by rewrite sortDescending_Permutation.
  pose proof (StronglySorted_merge_sort descending l) as Hs.
  fold (sortDescending l) in Hs.
  induction Hs as [|a s Hs IH Hall]; [constructor|].
  apply NoDup_cons in Hnd' as [Ha Hnd'].
  constructor; [by apply IH|].
  rewrite Forall_forall in Hall |- *. intros b Hb.
  specialize (Hall b Hb). unfold descending in Hall.
  assert (a ≠ b) by (intros ->; done). lia.
Qed.

(** ** Positional deletion *)

Section KeepFrom.
Context {A : Type}.
Implicit Types (p q : nat → bool) (l : list A).

Lemma keepFrom_ext p q l : ∀ i,
  (∀ j, i ≤ j → p j = q j) → keepFrom p i l = keepFrom q i l.
Proof.
  induction l as [|x l IH]; intros i Hpq; simpl; [done|].
  rewrite (Hpq i) by lia. rewrite (IH (S i)); [done|].
  intros j Hj. apply Hpq. lia.
Qed.

Lemma keepFrom_all p l : ∀ i,
  (∀ j, i ≤ j → p j = true) → keepFrom p i l = l.
Proof.
  induction l as [|x l IH]; intros i Hp; simpl; [done|].
  rewrite (Hp i) by lia. f_equal. apply IH. intros j Hj. apply Hp. lia.
Qed.

(** Deleting position [t], none of the positions from [t] on being
    excluded by [p], is excluding [t] as well. *)
Lemma keepFrom_delete p l : ∀ t i,
  i ≤ t → (∀ j, t ≤ j → p j = true) →
  keepFrom p i (delete (t - i) l) = keepFrom (λ j, p j && negb (j =? t)%nat) i l.
Proof.
  induction l as [|x l IH]; intros t i Hit Hp; [done|].
  destruct (decide (t = i)) as [->|Hne].
  - rewrite Nat.sub_diag. simpl. rewrite Nat.eqb_refl, andb_false_r.
    rewrite keepFrom_all by (intros j Hj; apply Hp; lia).
    symmetry. apply keepFrom_all. intros j Hj.
    rewrite Hp by lia. simpl. apply negb_true_iff, Nat.eqb_neq. lia.
  - replace (t - i) with (S (t - S i)) by lia. simpl.
    replace (i =? t)%nat with false by (symmetry; apply Nat.eqb_neq; lia).
    rewrite andb_true_r. rewrite (IH t (S i)) by (done || lia). done.
Qed.

Lemma keepFrom_lookup p l : ∀ i,
  Some <$> keepFrom p i l
  = (λ j, l !! (j - i)) <$> filter (λ j, p j = true) (seq i (length l)).
Proof.
  induction l as [|x l IH]; intros i; [done|].
  assert (((λ j, (x :: l) !! (j - i)) <$> filter (λ j, p j = true) (seq (S i) (length l)))
          = ((λ j, l !! (j - S i)) <$> filter (λ j, p j = true) (seq (S i) (length l))))
    as Htail.
  { apply list_fmap_ext. intros k j Hj.
    apply list_elem_of_lookup_2, list_elem_of_filter in Hj as [_ Hj].
    apply elem_of_seq in Hj.
    replace (j - i) with (S (j - S i)) by lia. done. }
  cbn [keepFrom length seq]. rewrite filter_cons.
  destruct (p i) eqn:E.
  - rewrite decide_True by done. rewrite !fmap_cons, Nat.sub_diag.
    rewrite Htail, <- IH. done.
  - rewrite decide_False by congruence. rewrite Htail, <- IH. done.
Qed.
End KeepFrom.

Lemma sorted_filter_seq (p : nat → bool) n : ∀ i,
  StronglySorted lt (filter (λ j, p j = true) (seq i n)).
Proof.
  induction n as [|n IH]; intros i; simpl; [constructor|].
  rewrite filter_cons. destruct (decide (p i = true)).
  - constructor; [apply IH|]. apply Forall_forall. intros j Hj.
    apply list_elem_of_filter in Hj as [_ Hj]. apply elem_of_seq in Hj. lia.
  - apply IH.
Qed.

(** The splice loop over a strictly descending index list removes exactly
    the listed positions. *)
Lemma splice_loop_keep ds :
  StronglySorted (λ a b, b < a) ds →
  ∀ (rows : list DataRow) console i,
    (forEach_from deleteCallback i ds (rows, console)).1
    = keepFrom (λ j, bool_decide (j ∉ ds)) 0 rows.
Proof.
  induction 1 as [|d ds Hs IH Hall]; intros rows console i; simpl.
  - symmetry. apply keepFrom_all. intros j _. done.
  - unfold deleteCallback at 2. simpl. rewrite IH. unfold splice1.
    pose proof (keepFrom_delete (λ j, bool_decide (j ∉ ds)) rows d 0) as Hdel.
    rewrite Nat.sub_0_r in Hdel. rewrite Hdel; [|lia|]; clear Hdel.
    + apply keepFrom_ext. intros j _.
      destruct (decide (j = d)) as [->|Hne].
      * rewrite Nat.eqb_refl, andb_false_r. symmetry.
        apply bool_decide_eq_false. rewrite not_elem_of_cons. tauto.
      * replace (j =? d)%nat with false by (symmetry; by apply Nat.eqb_neq).
        rewrite andb_true_r. apply bool_decide_ext.
        rewrite not_elem_of_cons. tauto.
    + intros j Hj. apply bool_decide_eq_true. intros Hin.
      rewrite Forall_forall in Hall. specialize (Hall j Hin). lia.
Qed.

(** The rows left by stages 2 and 3, whatever the console held. *)
Lemma dedupStages_rows rows console :
  (dedupStages rows console).1
  = keepFrom (λ j, bool_decide (j ∉ indicesToDelete rows)) 0 rows.
Proof.
  unfold dedupStages, forEach. rewrite splice_loop_keep.
  - apply keepFrom_ext. intros j _. apply bool_decide_ext.
    by rewrite elem_of_sortDescending, elem_of_uniqueArray, detect_indices.
  - apply sortDescending_strict, uniqueArray_NoDup.
Qed.

Lemma removeDuplicates_keepFrom rows :
  removeDuplicates rows
  = keepFrom (λ j, bool_decide (j ∉ indicesToDelete rows)) 0 rows.
Proof. apply dedupStages_rows. Qed.

Lemma dedupStages_removeDuplicates rows console :
  (dedupStages rows console).1 = removeDuplicates rows.
Proof. by rewrite dedupStages_rows, removeDuplicates_keepFrom. Qed.

(** A position is left unmarked exactly when it holds the first record of
    its class. *)
Lemma unmarked_firstOfClass rows j :
  j < length rows → (j ∉ indicesToDelete rows ↔ firstOfClass rows j).
Proof.
  intros Hj. rewrite elem_of_indicesToDelete. unfold firstOfClass.
  destruct (lookup_lt_is_Some_2 rows j Hj) as [x Hx]. split.
  - intros Hno. exists x. split; [done|]. intros i r' Hi Hr' Hk.
    apply Hno. by exists i, r', x.
  - intros (r & Hr & Hfirst) (i & o & y & Ho & Hy & Hi & Hk).
    rewrite Hr in Hy. injection Hy as <-. by apply (Hfirst i o).
Qed.

Lemma existsb_isDuplicate earlier r :
  existsb (λ e, isDuplicate e r) earlier = true ↔ ∃ e, e ∈ earlier ∧ key e = key r.
Proof.
  rewrite existsb_exists. setoid_rewrite isDuplicate_key.
  by setoid_rewrite list_elem_of_In.
Qed.

(** The pass computes the reference formulation. *)
Lemma keepFrom_keepFirstFrom rest : ∀ earlier,
  keepFrom (λ j, bool_decide (j ∉ indicesToDelete (earlier ++ rest)))
    (length earlier) rest
  = keepFirstFrom earlier rest.
Proof.
  induction rest as [|r rest IH]; intros earlier; simpl; [done|].
  assert (bool_decide (length earlier ∉ indicesToDelete (earlier ++ r :: rest))
          = negb (existsb (λ e, isDuplicate e r) earlier)) as ->.
  { destruct (existsb (λ e, isDuplicate e r) earlier) eqn:E; simpl.
    - apply bool_decide_eq_false. intros Hno. apply Hno.
      apply existsb_isDuplicate in E as (e & He & Hk).
      apply list_elem_of_lookup in He as [i Hi].
      apply elem_of_indicesToDelete. exists i, e, r.
      rewrite lookup_app_l by (by eapply lookup_lt_Some).
      rewrite list_lookup_middle by done.
      repeat split; [done|by eapply lookup_lt_Some|done].
    - apply bool_decide_eq_true. intros Hin.
      apply elem_of_indicesToDelete in Hin as (i & o & x & Ho & Hx & Hi & Hk).
      rewrite list_lookup_middle in Hx by done. injection Hx as <-.
      rewrite lookup_app_l in Ho by done.
      assert (existsb (λ e, isDuplicate e r) earlier = true) as E'; [|congruence].
      apply existsb_isDuplicate. exists o. split; [|done].
      by eapply list_elem_of_lookup_2. }
  specialize (IH (earlier ++ [r])).
  rewrite <- (assoc_L (++)) in IH. simpl in IH.
  rewrite length_app in IH. simpl in IH. rewrite Nat.add_1_r in IH.
  destruct (existsb (λ e, isDuplicate e r) earlier); simpl; by rewrite IH.
Qed.

Lemma removeDuplicates_keepFirst rows :
  removeDuplicates rows = keepFirstOccurrences rows.
Proof.
  rewrite removeDuplicates_keepFrom. apply (keepFrom_keepFirstFrom rows []).
Qed.

(** ** Equivalence classes in the output *)

Lemma existsb_isDuplicate_key earlier x r :
  key x = key r →
  existsb (λ e, isDuplicate e x) earlier = existsb (λ e, isDuplicate e r) earlier.
Proof.
  intros Hk. apply eq_true_iff_eq. rewrite !existsb_isDuplicate.
  by setoid_rewrite Hk.
Qed.

Lemma classSize_cons r x rows :
  classSize r (x :: rows)
  = (if isDuplicate x r then 1 else 0) + classSize r rows.
Proof.
  unfold classSize. rewrite filter_cons.
  destruct (isDuplicate x r) eqn:E.
  - apply isDuplicate_key in E. by rewrite decide_True.
  - apply isDuplicate_false in E. by rewrite decide_False.
Qed.

Lemma classSize_keepFirstFrom r rows : ∀ earlier,
  classSize r (keepFirstFrom earlier rows)
  = if existsb (λ e, isDuplicate e r) earlier then 0
    else Nat.min 1 (classSize r rows).
Proof.
  induction rows as [|x rows IH]; intros earlier.
  - simpl. by destruct (existsb _ earlier).
  - cbn [keepFirstFrom]. rewrite (classSize_cons r x rows).
    specialize (IH (earlier ++ [x])).
    rewrite existsb_app in IH. cbn [existsb] in IH. rewrite orb_false_r in IH.
    destruct (isDuplicate x r) eqn:Exr.
    + pose proof (proj1 (isDuplicate_key x r) Exr) as Hk.
      rewrite (existsb_isDuplicate_key earlier x r Hk).
      rewrite orb_true_r in IH.
      destruct (existsb (λ e, isDuplicate e r) earlier); [done|].
      rewrite classSize_cons, Exr, IH. done.
    + rewrite orb_false_r in IH.
      destruct (existsb (λ e, isDuplicate e x) earlier).
      * rewrite IH. done.
      * rewrite classSize_cons, Exr, IH. done.
Qed.

Lemma classSize_pos r rows : r ∈ rows → 0 < classSize r rows.
Proof.
  intros Hr. unfold classSize.
  assert (r ∈ filter (λ x, key x = key r) rows) as Hin
    by (by apply list_elem_of_filter).
  destruct (filter _ rows); [by apply elem_of_nil in Hin|simpl; lia].
Qed.

(** The keys of the records kept are pairwise different, and different from
    the keys walked over before. *)
Lemma keepFirstFrom_keys rows : ∀ earlier,
  NoDup (key <$> keepFirstFrom earlier rows)
  ∧ ∀ x e, x ∈ keepFirstFrom earlier rows → e ∈ earlier → key e ≠ key x.
Proof.
  induction rows as [|r rows IH]; intros earlier.
  - simpl. split; [constructor|]. intros x e Hx. by apply elem_of_nil in Hx.
  - cbn [keepFirstFrom]. destruct (IH (earlier ++ [r])) as [Hnd Hne].
    destruct (existsb (λ e, isDuplicate e r) earlier) eqn:E.
    + split; [done|]. intros x e Hx He. apply (Hne x e Hx).
      apply elem_of_app. by left.
    + split.
      * rewrite fmap_cons. constructor; [|done].
        intros Hin. apply list_elem_of_fmap in Hin as (x & Hk & Hx).
        apply (Hne x r Hx); [|done]. apply elem_of_app. right.
        by apply list_elem_of_singleton.
      * intros x e Hx He. apply elem_of_cons in Hx as [->|Hx].
        -- intros Hk.
           assert (existsb (λ e, isDuplicate e r) earlier = true) as E';
             [|congruence].
           apply existsb_isDuplicate. by exists e.
        -- apply (Hne x e Hx). apply elem_of_app. by left.
Qed.

Lemma removeDuplicates_NoDup_keys rows :
  NoDup (key <$> removeDuplicates rows).
Proof. rewrite removeDuplicates_keepFirst. apply keepFirstFrom_keys. Qed.

(** Nothing is marked in a sequence whose keys are pairwise different. *)
Lemma indicesToDelete_NoDup_keys rows :
  NoDup (key <$> rows) → indicesToDelete rows = [].
Proof.
  intros Hnd. destruct (indicesToDelete rows) as [|j l] eqn:E; [done|].
  assert (j ∈ indicesToDelete rows) as Hj by (rewrite E; apply elem_of_cons; by left).
  apply elem_of_indicesToDelete in Hj as (i & o & x & Ho & Hx & Hi & Hk).
  assert (i = j); [|lia].
  apply (NoDup_lookup (key <$> rows) i j (key o)); [done| |].
  - by rewrite list_lookup_fmap, Ho.
  - by rewrite list_lookup_fmap, Hx, Hk.
Qed.

(** * The claims about the duplicate-removal pass *)

(** C1.  For every input sequence the pass keeps exactly the records that
    stand at the smallest position of their (target, failureSummary) class,
    in their original order: it computes the first-occurrence reduction,
    every class of the input has exactly one record in the output, so a class
    of size k > 1 loses exactly k - 1 records; and for [A; B; C] with B in the
    class of A and C on another target the output is [A; C]. *)
Theorem C1_one_representative_per_key (rows : list DataRow) :
  let out := removeDuplicates rows in
  out = keepFirstOccurrences rows
  ∧ (∃ kept : list nat,
        StronglySorted lt kept
        ∧ (∀ j, j ∈ kept ↔ firstOfClass rows j)
        ∧ Some <$> out = (λ j, rows !! j) <$> kept)
  ∧ (∀ r, r ∈ rows → classSize r out = 1)
  ∧ (∀ r k, r ∈ rows → classSize r rows = k → 1 < k →
        classSize r rows - classSize r out = k - 1)
  ∧ (∀ A B C, rows = [A; B; C] →
        target B = target A → failureSummary B = failureSummary A →
        target C ≠ target A → failureSummary C = failureSummary A →
        out = [A; C]).
Proof.
  intros out.
  assert (∀ r, r ∈ rows → classSize r out = 1) as Hone.
  { intros r Hr. unfold out. rewrite removeDuplicates_keepFirst.
    unfold keepFirstOccurrences. rewrite classSize_keepFirstFrom.
    pose proof (classSize_pos r rows Hr).
    destruct (classSize r rows); [lia|done]. }
  split; [apply removeDuplicates_keepFirst|].
  split; [|split; [done|split]].
  - exists (filter (λ j, bool_decide (j ∉ indicesToDelete rows) = true)
              (seq 0 (length rows))).
    split; [apply sorted_filter_seq|]. split.
    + intros j. rewrite list_elem_of_filter, elem_of_seq, bool_decide_eq_true.
      split.
      * intros [Hj Hlt]. apply unmarked_firstOfClass; [lia|done].
      * intros Hf. assert (j < length rows) as Hlt.
        { destruct Hf as (r & Hr & _). by eapply lookup_lt_Some. }
        split; [by apply unmarked_firstOfClass|lia].
    + unfold out. rewrite removeDuplicates_keepFrom, keepFrom_lookup.
      apply list_fmap_ext. intros ? j _. by rewrite Nat.sub_0_r.
  - intros r k Hr Hk Hlt. rewrite (Hone r Hr). lia.
  - intros A B C -> HtB HfB HtC HfC. unfold out.
    rewrite removeDuplicates_keepFirst.
    unfold keepFirstOccurrences, keepFirstFrom, existsb, isDuplicate. simpl.
    rewrite HtB, HfB, HfC.
    rewrite (proj2 (strictEq_true (target A) (target A)) eq_refl).
    rewrite (proj2 (strictEq_true (failureSummary A) (failureSummary A)) eq_refl).
    assert (strictEq (target A) (target C) = false) as ->.
    { unfold strictEq. apply bool_decide_eq_false. congruence. }
    done.
Qed.

Lemma C1_one_representative_per_key_witness :
  removeDuplicates [rowA; rowB; rowC] = [rowA; rowC]
  ∧ classSize rowA (removeDuplicates [rowA; rowB; rowC]) = 1
  ∧ classSize rowA [rowA; rowB; rowC] - classSize rowA (removeDuplicates [rowA; rowB; rowC])
    = 2 - 1.
Proof.
  destruct (C1_one_representative_per_key [rowA; rowB; rowC])
    as (_ & _ & Hone & Hrem & Hex).
  split; [|split].
  - apply (Hex rowA rowB rowC); [reflexivity|reflexivity|reflexivity|discriminate|reflexivity].
  - apply Hone. apply elem_of_cons. left. reflexivity.
  - apply (Hrem rowA 2); [apply elem_of_cons; left; reflexivity|reflexivity|lia].
Defined.

(** C2.  Positional deletion is index-safe.  The index list handed to the
    splice loop is computed from the sequence as it was loaded, holds every
    marked position once, and goes strictly down; the loop then removes
    exactly the marked positions.  For a 5-element input whose marked
    positions are 1 and 3 the result is the elements of positions 0, 2, 4 in
    that order. *)
Theorem C2_index_safe_deletion (rows : list DataRow) :
  let marked := indicesToDelete rows in
  let unique := sortDescending (uniqueArray marked) in
  (∀ console, dedupStages rows console
              = forEach deleteCallback unique (rows, (detect rows console).2))
  ∧ NoDup unique
  ∧ (∀ j, j ∈ unique ↔ j ∈ marked)
  ∧ StronglySorted (λ a b, b < a) unique
  ∧ (∀ j, j ∈ unique → j < length rows)
  ∧ removeDuplicates rows = keepFrom (λ j, bool_decide (j ∉ marked)) 0 rows
  ∧ (∀ a b c d e, rows = [a; b; c; d; e] →
        (∀ j, j ∈ marked ↔ j = 1 ∨ j = 3) →
        removeDuplicates rows = [a; c; e]).
Proof.
  intros marked unique.
  assert (∀ j, j ∈ unique ↔ j ∈ marked) as Hsame.
  { intros j. unfold unique. by rewrite elem_of_sortDescending, elem_of_uniqueArray. }
  split; [|split; [|split; [done|split; [|split; [|split]]]]].
  - intros console. unfold dedupStages. cbv zeta. by rewrite detect_indices.
  - unfold unique. rewrite sortDescending_Permutation. apply uniqueArray_NoDup.
  - apply sortDescending_strict, uniqueArray_NoDup.
  - intros j Hj. apply Hsame, elem_of_indicesToDelete in Hj
      as (i & o & x & _ & Hx & _). by eapply lookup_lt_Some.
  - apply removeDuplicates_keepFrom.
  - intros a b c d e -> Hmarked. rewrite removeDuplicates_keepFrom.
    fold marked. cbn [keepFrom].
    rewrite (bool_decide_eq_true_2 (0 ∉ marked)) by (rewrite Hmarked; lia).
    rewrite (bool_decide_eq_false_2 (1 ∉ marked)) by (rewrite Hmarked; tauto).
    rewrite (bool_decide_eq_true_2 (2 ∉ marked)) by (rewrite Hmarked; lia).
    rewrite (bool_decide_eq_false_2 (3 ∉ marked)) by (rewrite Hmarked; tauto).
    rewrite (bool_decide_eq_true_2 (4 ∉ marked)) by (rewrite Hmarked; lia).
    done.
Qed.

Lemma C2_index_safe_deletion_witness :
  indicesToDelete [rowA; rowB; rowC; rowD; rowE] = [1; 3]
  ∧ removeDuplicates [rowA; rowB; rowC; rowD; rowE] = [rowA; rowC; rowE].
Proof.
  assert (indicesToDelete [rowA; rowB; rowC; rowD; rowE] = [1; 3]) as Hm
    by (vm_compute; reflexivity).
  split; [exact Hm|].
  destruct (C2_index_safe_deletion [rowA; rowB; rowC; rowD; rowE])
    as (_ & _ & _ & _ & _ & _ & Hex).
  apply (Hex rowA rowB rowC rowD rowE); [reflexivity|].
  intros j. rewrite Hm. rewrite !elem_of_cons.
  split; [intros [?|[?|?%elem_of_nil]]; tauto | intros [?|?]; tauto].
Defined.

(** C4.  The pass is idempotent: on its own output the detection marks no
    position and the pass returns the sequence unchanged. *)
Theorem C4_idempotent (rows : list DataRow) :
  indicesToDelete (removeDuplicates rows) = []
  ∧ sortDescending (uniqueArray (indicesToDelete (removeDuplicates rows))) = []
  ∧ removeDuplicates (removeDuplicates rows) = removeDuplicates rows.
Proof.
  pose proof (indicesToDelete_NoDup_keys _ (removeDuplicates_NoDup_keys rows)) as Hnone.
  split; [done|]. split; [by rewrite Hnone|].
  rewrite (removeDuplicates_keepFrom (removeDuplicates rows)), Hnone.
  apply keepFrom_all. intros j _. apply bool_decide_eq_true_2, not_elem_of_nil.
Qed.

(** C5.  A missing [target] or [failureSummary] reads as the absent value
    and compares equal to itself: two records without [failureSummary] and
    with equal targets (both absent included) pass both comparisons, so the
    inner callback marks the later one and the pass, which is total, drops
    it. *)
Theorem C5_absent_fields_are_equal (a b : DataRow) :
  failureSummary a = None → failureSummary b = None → target a = target b →
  isDuplicate a b = true
  ∧ (∀ outerIndex innerIndex st, outerIndex < innerIndex →
       (innerCallback a outerIndex b innerIndex st).1 = st.1 ++ [innerIndex])
  ∧ indicesToDelete [a; b] = [1]
  ∧ removeDuplicates [a; b] = [a].
Proof.
  intros Ha Hb Ht.
  assert (isDuplicate a b = true) as Hd.
  { apply isDuplicate_key. unfold key. by rewrite Ha, Hb, Ht. }
  assert (isDuplicate a a = true) as Haa by by apply isDuplicate_key.
  assert (indicesToDelete [a; b] = [1]) as Hm.
  { unfold indicesToDelete, detect, forEach, outerCallback, forEach.
    cbn [forEach_from]. rewrite !innerCallback_indices.
    cbn [Nat.ltb Nat.leb andb fst]. by rewrite Hd. }
  split; [done|]. split; [|split; [done|]].
  - intros oi xi st Hlt. rewrite innerCallback_indices.
    apply Nat.ltb_lt in Hlt. by rewrite Hlt, Hd.
  - rewrite removeDuplicates_keepFrom, Hm. reflexivity.
Qed.

Lemma C5_absent_fields_are_equal_witness :
  isDuplicate rowNoKey1 rowNoKey2 = true
  ∧ removeDuplicates [rowNoKey1; rowNoKey2] = [rowNoKey1].
Proof.
  destruct (C5_absent_fields_are_equal rowNoKey1 rowNoKey2)
    as (Hd & _ & _ & Hr); [reflexivity|reflexivity|reflexivity|].
  split; [exact Hd|exact Hr].
Defined.

(** * The consolidation run *)

Section Consolidation.
Variable readSheet : string → ReadResult.


Lemma fileCallback_sheetData file index st lastIndex :
  sheetData (fileCallback readSheet file index (st, lastIndex)).1
  = sheetData st ++ rowsOfEntry readSheet file.
Proof.
  unfold fileCallback, rowsOfEntry, appendDataToSheet. simpl.
  destruct (bool_decide (extname file = ".xlsx")); simpl;
    [|by rewrite app_nil_r].
  destruct (readSheet (joinDirectory file)); simpl; [by rewrite app_nil_r|].
  by destruct (lastIndexIsTrue _).
Qed.

(** The loop touches neither the console nor the work-list workbook, and
    what it writes is written at the master path. *)
Lemma fileCallback_frame file index st lastIndex :
  let st' := (fileCallback readSheet file index (st, lastIndex)).1 in
  console st' = console st ∧ finalBook st' = finalBook st
  ∧ ∃ extra, written st' = written st ++ extra
             ∧ Forall (λ w, w.1 = masterPath) extra.
Proof.
  unfold fileCallback, appendDataToSheet. simpl.
  destruct (bool_decide (extname file = ".xlsx")); simpl.
  - destruct (readSheet (joinDirectory file)); simpl.
    + repeat split; [exists []; by rewrite app_nil_r].
    + destruct (lastIndexIsTrue _); simpl; repeat split.
      * eexists. split; [done|]. by constructor.
      * exists []. by rewrite app_nil_r.
  - repeat split. exists []. by rewrite app_nil_r.
Qed.

Lemma load_loop files : ∀ index st lastIndex,
  let st' := (forEach_from (fileCallback readSheet) index files (st, lastIndex)).1 in
  sheetData st' = sheetData st ++ flat_map (rowsOfEntry readSheet) files
  ∧ console st' = console st ∧ finalBook st' = finalBook st
  ∧ ∃ extra, written st' = written st ++ extra
             ∧ Forall (λ w, w.1 = masterPath) extra.
Proof.
  induction files as [|file files IH]; intros index st lastIndex; simpl.
  - rewrite app_nil_r. repeat split. exists []. by rewrite app_nil_r.
  - destruct (fileCallback readSheet file index (st, lastIndex)) as [st1 li1] eqn:E.
    pose proof (fileCallback_sheetData file index st lastIndex) as Hd.
    pose proof (fileCallback_frame file index st lastIndex) as (Hc & Hf & ex1 & Hw1 & Hm1).
    rewrite E in Hd, Hc, Hf, Hw1. simpl in Hd, Hc, Hf, Hw1.
    destruct (IH (S index) st1 li1) as (Hd' & Hc' & Hf' & ex2 & Hw2 & Hm2).
    simpl in Hd', Hc', Hf', Hw2.
    rewrite Hd', Hc', Hf', Hw2, Hd, Hc, Hf, Hw1.
    rewrite <- !(assoc_L (++)). repeat split.
    exists (ex1 ++ ex2). split; [done|]. by apply Forall_app.
Qed.

(** The working sequence is the concatenation, in listing order, of the
    rows of the entries that pass the extension test and can be read. *)
Lemma loadAll_sheetData files :
  sheetData (loadAll readSheet files initialScript)
  = flat_map (rowsOfEntry readSheet) files.
Proof. unfold loadAll, forEach. by rewrite (proj1 (load_loop files 0 _ _)). Qed.



(** As long as the loop has not reached the index held by [lastIndex],
    nothing is written and [lastIndex] stays a number. *)
Lemma load_loop_before_last files (n : Z) : ∀ index st,
  (Z.of_nat (index + length files) ≤ n)%Z →
  let r := forEach_from (fileCallback readSheet) index files (st, LastNumber n) in
  r.2 = LastNumber n ∧ written r.1 = written st ∧ wb r.1 = wb st.
Proof.
  induction files as [|file files IH]; intros index st Hn; [done|].
  assert (∃ st1, fileCallback readSheet file index (st, LastNumber n)
                 = (st1, LastNumber n)
                 ∧ written st1 = written st ∧ wb st1 = wb st)
    as (st1 & E & Hw & Hb).
  { unfold fileCallback. cbn [fst snd lastIndexIs].
    rewrite (bool_decide_eq_false_2 (n = Z.of_nat index)) by (simpl in Hn; lia).
    destruct (bool_decide (extname file = ".xlsx")); [|by exists st].
    eexists. split; [done|]. unfold appendDataToSheet.
    by destruct (readSheet (joinDirectory file)). }
  destruct (IH (S index) st1) as (Hl & Hw' & Hb'); [simpl in Hn; lia|].
  cbn [forEach_from]. rewrite E. cbv zeta. by rewrite Hl, Hw', Hb', Hw, Hb.
Qed.

(** When the last entry of the listing is a readable spreadsheet, both
    files are written: the master list holds the whole concatenation, the
    work list the reduced sequence. *)
Lemma both_files_written_when_last_is_xlsx files file workbook :
  extname file = ".xlsx" →
  readSheet (joinDirectory file) = ReadOk workbook →
  let all := flat_map (rowsOfEntry readSheet) (files ++ [file]) in
  written (runScript readSheet (files ++ [file]))
  = [(masterPath, [all]); (workPath, [removeDuplicates all])].
Proof.
  intros Hext Hread all.
  unfold runScript, readdirCallback, dedupAndWrite, loadAll, forEach. simpl.
  rewrite forEach_from_app. simpl.
  pose proof (load_loop files 0 initialScript
                (LastNumber (Z.of_nat (length (files ++ [file])) - 1)))
    as (Hd & _ & Hf & _).
  pose proof (load_loop_before_last files
                (Z.of_nat (length (files ++ [file])) - 1) 0 initialScript)
    as (Hl & Hw & Hb); [rewrite length_app; simpl; lia|].
  simpl in Hd, Hf, Hl, Hw, Hb.
  destruct (forEach_from (fileCallback readSheet) 0 files
              (initialScript, LastNumber (Z.of_nat (length (files ++ [file])) - 1)))
    as [st1 li1].
  simpl in Hd, Hf, Hl, Hw, Hb. subst li1.
  unfold fileCallback. cbn [fst snd lastIndexIs].
  rewrite (bool_decide_eq_true_2 (_ = Z.of_nat _))
    by (rewrite length_app; simpl; lia).
  rewrite (bool_decide_eq_true_2 _ Hext). unfold appendDataToSheet.
  rewrite Hread. simpl. rewrite dedupStages_removeDuplicates, Hw, Hb, Hf, Hd.
  assert (rowsOfEntry readSheet file = firstSheetRows workbook) as Hrows.
  { unfold rowsOfEntry. by rewrite (bool_decide_eq_true_2 _ Hext), Hread. }
  subst all. rewrite flat_map_app. simpl. by rewrite Hrows, app_nil_r.
Qed.
End Consolidation.

(** * The claims about the consolidation run *)

(** C3.  The claim: both output files are produced on every run, the master
    list unconditionally.  The script at a listing whose last entry is not a
    spreadsheet, and at an empty listing: the rows are loaded, the work list
    is written, no master list is. *)
Theorem C3_master_list_missing_after_non_xlsx_entry :
  sheetData (loadAll diskHome ["home.xlsx"; "notes.txt"] initialScript)
  = [rowA; rowB; rowC]
  ∧ written (runScript diskHome ["home.xlsx"; "notes.txt"])
    = [(workPath, [[rowA; rowC]])]
  ∧ fileAt masterPath (written (runScript diskHome ["home.xlsx"; "notes.txt"])) = None
  ∧ written (runScript diskHome []) = [(workPath, [[]])]
  ∧ written (runScript diskHome ["notes.txt"; "home.xlsx"])
    = [(masterPath, [[rowA; rowB; rowC]]); (workPath, [[rowA; rowC]])].
Proof. vm_compute. repeat split; reflexivity. Qed.




(** C10.  The filter of the loading loop admits every entry whose extension
    is [.xlsx], the two output names included: the working sequence is the
    concatenation over all such entries, and when [master-list.xlsx] and
    [work-list.xlsx] are listed and readable, the rows of both are part of
    it. *)
Theorem C10_outputs_are_loaded_as_input
    (readSheet : string → ReadResult) (files : list string) :
  let loaded := sheetData (loadAll readSheet files initialScript) in
  loaded = flat_map (rowsOfEntry readSheet) files
  ∧ (∀ file workbook, file ∈ files → extname file = ".xlsx" →
       readSheet (joinDirectory file) = ReadOk workbook →
       rowsOfEntry readSheet file = firstSheetRows workbook
       ∧ firstSheetRows workbook ⊆ loaded)
  ∧ extname "master-list.xlsx" = ".xlsx"
  ∧ extname "work-list.xlsx" = ".xlsx"
  ∧ (∀ master work, "master-list.xlsx" ∈ files → "work-list.xlsx" ∈ files →
       readSheet "spreadsheets/master-list.xlsx" = ReadOk master →
       readSheet "spreadsheets/work-list.xlsx" = ReadOk work →
       firstSheetRows master ⊆ loaded ∧ firstSheetRows work ⊆ loaded).
Proof.
  intros loaded.
  assert (loaded = flat_map (rowsOfEntry readSheet) files) as Hloaded
    by apply loadAll_sheetData.
  assert (∀ file workbook, file ∈ files → extname file = ".xlsx" →
            readSheet (joinDirectory file) = ReadOk workbook →
            rowsOfEntry readSheet file = firstSheetRows workbook
            ∧ firstSheetRows workbook ⊆ loaded) as Hadmit.
  { intros file workbook Hin Hext Hread.
    assert (rowsOfEntry readSheet file = firstSheetRows workbook) as Hrows.
    { unfold rowsOfEntry. by rewrite (bool_decide_eq_true_2 _ Hext), Hread. }
    split; [done|]. intros r Hr. rewrite Hloaded.
    apply list_elem_of_In, in_flat_map. exists file.
    split; [by apply list_elem_of_In|]. rewrite Hrows. by apply list_elem_of_In. }
  split; [done|]. split; [done|]. split; [reflexivity|]. split; [reflexivity|].
  intros master work Hm Hw Hrm Hrw. split.
  - by apply (Hadmit "master-list.xlsx" master).
  - by apply (Hadmit "work-list.xlsx" work).
Qed.

Lemma C10_outputs_are_loaded_as_input_witness :
  diskSecondRun "spreadsheets/master-list.xlsx" = ReadOk [[rowA; rowB; rowC]]
  ∧ diskSecondRun "spreadsheets/work-list.xlsx" = ReadOk [[rowA; rowC]]
  ∧ [rowA; rowB; rowC] ⊆ sheetData (loadAll diskSecondRun listingSecondRun initialScript)
  ∧ [rowA; rowC] ⊆ sheetData (loadAll diskSecondRun listingSecondRun initialScript)
  ∧ sheetData (loadAll diskSecondRun listingSecondRun initialScript)
    = [rowA; rowB; rowC; rowA; rowB; rowC; rowA; rowC].
Proof.
  assert (diskSecondRun "spreadsheets/master-list.xlsx" = ReadOk [[rowA; rowB; rowC]])
    as Hm by (vm_compute; reflexivity).
  assert (diskSecondRun "spreadsheets/work-list.xlsx" = ReadOk [[rowA; rowC]])
    as Hw by (vm_compute; reflexivity).
  destruct (C10_outputs_are_loaded_as_input diskSecondRun listingSecondRun)
    as (_ & _ & _ & _ & Hboth).
  destruct (Hboth [[rowA; rowB; rowC]] [[rowA; rowC]]) as [H1 H2].
  - apply elem_of_cons. right. apply elem_of_cons. left. reflexivity.
  - apply elem_of_cons. right. apply elem_of_cons. right.
    apply elem_of_cons. left. reflexivity.
  - exact Hm.
  - exact Hw.
  - split; [exact Hm|]. split; [exact Hw|]. split; [exact H1|].
    split; [exact H2|]. vm_compute. reflexivity.
Defined.

(** * The collection suites *)

Lemma pushNodes_app slug ua element sheetData :
  pushNodes slug ua element sheetData
  = sheetData ++ map (dataRow slug ua element) (Axe.nodes element).
Proof.
  unfold pushNodes, forEach. generalize 0 as i. revert sheetData.
  induction (Axe.nodes element) as [|node nodes IH]; intros sheetData i; simpl.
  - by rewrite app_nil_r.
  - rewrite IH. by rewrite <- (assoc_L (++)).
Qed.

(** The two nested loops append the flattened scan to the array. *)
Lemma pushViolations_flatten slug ua violations : ∀ sheetData,
  pushViolations slug ua violations sheetData
  = sheetData ++ flatten slug ua violations.
Proof.
  unfold pushViolations, forEach. generalize 0 as i.
  induction violations as [|element violations IH]; intros i sheetData; simpl.
  - by rewrite app_nil_r.
  - rewrite IH, pushNodes_app. by rewrite <- (assoc_L (++)).
Qed.

Lemma ltb_length_nil {A : Type} (l : list A) :
  (0 <? length l)%nat = negb (bool_decide (l = [])).
Proof. by destruct l. Qed.

(** tfg: the file of a visit, when one is written, holds the records of that
    visit's scan and nothing else; no file is written for an empty scan. *)
Lemma Tfg_visit_writes_local_rows slug ua projectName violations w :
  Tfg.files (Tfg.visit slug ua projectName violations w).1
  = Tfg.files w
    ++ (if bool_decide (flatten slug ua violations = []) then []
        else [(String.append "spreadsheets/"
                 (String.append (sanitize (Tfg.destination slug projectName)) ".xlsx"),
               flatten slug ua violations)]).
Proof.
  unfold Tfg.visit. cbn [fst]. rewrite pushViolations_flatten, app_nil_l.
  rewrite ltb_length_nil.
  destruct (bool_decide (flatten slug ua violations = [])); simpl;
    [by rewrite app_nil_r|done].
Qed.


(** ** File names *)

Lemma sanitize_allSafe s : allSafe (sanitize s) = true.
Proof.
  induction s as [|c s IH]; [done|]. simpl. rewrite IH, andb_true_r.
  destruct (isAlnum c) eqn:E; [by rewrite E|done].
Qed.

Lemma allSafe_no_separator s : allSafe s = true → hasSeparator s = false.
Proof.
  induction s as [|c s IH]; [done|]. simpl. intros [Hc Hs]%andb_true_iff.
  rewrite (IH Hs), orb_false_r. apply bool_decide_eq_false. intros ->.
  vm_compute in Hc. discriminate.
Qed.

Lemma sanitize_length s : String.length (sanitize s) = String.length s.
Proof. induction s as [|c s IH]; [done|]. simpl. by rewrite IH. Qed.

Lemma append_length s t :
  String.length (String.append s t) = String.length s + String.length t.
Proof. induction s as [|c s IH]; [done|]. simpl. by rewrite IH. Qed.

Lemma substring_append_l s t :
  String.substring 0 (String.length s) (String.append s t) = s.
Proof. induction s as [|c s IH]; simpl; [by destruct t|by rewrite IH]. Qed.

Lemma substring_skip p s n :
  String.substring (String.length p) n (String.append p s) = String.substring 0 n s.
Proof. induction p as [|c p IH]; [done|]. simpl. apply IH. Qed.

Lemma stemOf_path stem :
  stemOf (String.append "spreadsheets/" (String.append stem ".xlsx")) = stem.
Proof.
  unfold stemOf. rewrite !append_length.
  replace (String.length "spreadsheets/"
           + (String.length stem + String.length ".xlsx") - 13 - 5)
    with (String.length stem) by (simpl; lia).
  etrans; [apply (substring_skip "spreadsheets/")|].
  apply substring_append_l.
Qed.

(** tfg: every page of every project gets a file whose stem is made of
    letters, digits and underscores only, is not empty and holds no path
    separator. *)
Lemma Tfg_destination_is_safe slug projectName data w :
  ∃ stem,
    Tfg.files (Tfg.sheetWriter (Tfg.destination slug projectName) data w)
    = Tfg.files w
      ++ [(String.append "spreadsheets/" (String.append stem ".xlsx"), data)]
    ∧ stemOf (String.append "spreadsheets/" (String.append stem ".xlsx")) = stem
    ∧ matchesSafeName stem = true
    ∧ hasSeparator stem = false.
Proof.
  exists (sanitize (Tfg.destination slug projectName)).
  split; [done|]. split; [apply stemOf_path|].
  pose proof (sanitize_allSafe (Tfg.destination slug projectName)) as Hsafe.
  split; [|by apply allSafe_no_separator].
  unfold matchesSafeName. rewrite Hsafe, andb_true_r.
  apply negb_true_iff, bool_decide_eq_false. intros Hempty.
  apply (f_equal String.length) in Hempty.
  rewrite sanitize_length in Hempty. unfold Tfg.destination in Hempty.
  rewrite !append_length in Hempty. simpl in Hempty. lia.
Qed.

Example Tfg_allianz_trade :
  sanitize (Tfg.destination "case-studies/allianz-trade/" "Desktop Chrome")
  = "case_studies_allianz_trade__Desktop_Chrome".
Proof. vm_compute. reflexivity. Qed.

(** * The claims about the collection suites *)



(** C8.  The claim: every result writer replaces the characters outside
    [A-Za-z0-9] of the destination name by underscores.  The writer of the
    ada suite on the slug [case-studies] of its own list: the name goes into
    the path as it is, and the stem does not match [^[A-Za-z0-9_]+$]. *)
Theorem C8_ada_writer_does_not_sanitize :
  let w := (Ada.visit "case-studies" userAgent [violationImageAlt] Ada.initial).1 in
  fst <$> Ada.files w = ["spreadsheets/case-studies.xlsx"]
  ∧ stemOf "spreadsheets/case-studies.xlsx" = "case-studies"
  ∧ matchesSafeName (stemOf "spreadsheets/case-studies.xlsx") = false
  ∧ fst <$> Ada.files (Ada.sheetWriter "a/b" Ada.initial) = ["spreadsheets/a/b.xlsx"]
  ∧ hasSeparator (stemOf "spreadsheets/a/b.xlsx") = true.
Proof. vm_compute. repeat split; reflexivity. Qed.

(** at-scale: the writer sanitizes, and the rows it is handed are those of
    the module-level array, rows of earlier visits included. *)
Example AtScale_second_visit :
  let w1 := (AtScale.visit "news-ideas/" userAgent [violationImageAlt] AtScale.initial).1 in
  let w2 := (AtScale.visit "events/scale-networking" userAgent [violationLabel] w1).1 in
  AtScale.files w2
  = [("spreadsheets/news_ideas_.xlsx",
      flatten "news-ideas/" userAgent [violationImageAlt]);
     ("spreadsheets/events_scale_networking.xlsx",
      flatten "news-ideas/" userAgent [violationImageAlt]
      ++ flatten "events/scale-networking" userAgent [violationLabel])]
  ∧ AtScale.files (AtScale.visit "news-ideas/" userAgent [] AtScale.initial).1 = [].
Proof. vm_compute. split; reflexivity. Qed.

(** * Further properties of the duplicate-removal pass *)

Lemma keepFrom_sublist {A : Type} (p : nat → bool) (l : list A) : ∀ i,
  keepFrom p i l `sublist_of` l.
Proof.
  induction l as [|x l IH]; intros i; simpl; [done|].
  destruct (p i); [by apply sublist_skip|by apply sublist_cons].
Qed.

Lemma keepFrom_fmap {A B : Type} (f : A → B) (p : nat → bool) (l : list A) : ∀ i,
  f <$> keepFrom p i l = keepFrom p i (f <$> l).
Proof.
  induction l as [|x l IH]; intros i; simpl; [done|].
  destruct (p i); simpl; by rewrite IH.
Qed.

Lemma existsb_isDuplicate_elem_of earlier r :
  existsb (λ e, isDuplicate e r) earlier = true ↔ key r ∈ key <$> earlier.
Proof.
  rewrite existsb_isDuplicate, list_elem_of_fmap. split.
  - intros (e & He & Hk). by exists e.
  - intros (e & Hk & He). by exists e.
Qed.

(** The records kept are those of the whole pass whose key was not walked
    over before. *)
Lemma keepFirstFrom_filter rows : ∀ earlier seen,
  keepFirstFrom (earlier ++ seen) rows
  = filter (λ x, key x ∉ key <$> earlier) (keepFirstFrom seen rows).
Proof.
  induction rows as [|r rows IH]; intros earlier seen; [done|].
  cbn [keepFirstFrom]. rewrite <- (assoc_L (++)), IH.
  rewrite existsb_app.
  destruct (existsb (λ e, isDuplicate e r) seen) eqn:Es.
  { by rewrite orb_true_r. }
  rewrite orb_false_r, filter_cons.
  destruct (existsb (λ e, isDuplicate e r) earlier) eqn:Ee.
  - apply existsb_isDuplicate_elem_of in Ee. by rewrite decide_False by tauto.
  - rewrite decide_True; [done|]. intros Hin.
    apply existsb_isDuplicate_elem_of in Hin. congruence.
Qed.

Lemma keepFirstFrom_app a b : ∀ earlier,
  keepFirstFrom earlier (a ++ b)
  = keepFirstFrom earlier a ++ keepFirstFrom (earlier ++ a) b.
Proof.
  induction a as [|r a IH]; intros earlier; simpl.
  - by rewrite app_nil_r.
  - rewrite IH, <- (assoc_L (++)). simpl.
    by destruct (existsb (λ e, isDuplicate e r) earlier).
Qed.

(** Only the keys of the records walked over matter. *)
Lemma keepFirstFrom_same_keys rows : ∀ earlier earlier',
  (∀ k, k ∈ key <$> earlier ↔ k ∈ key <$> earlier') →
  keepFirstFrom earlier rows = keepFirstFrom earlier' rows.
Proof.
  induction rows as [|r rows IH]; intros earlier earlier' Hsame; [done|].
  cbn [keepFirstFrom].
  assert (existsb (λ e, isDuplicate e r) earlier
          = existsb (λ e, isDuplicate e r) earlier') as ->.
  { apply eq_true_iff_eq. by rewrite !existsb_isDuplicate_elem_of. }
  rewrite (IH (earlier ++ [r]) (earlier' ++ [r])); [done|].
  intros k. rewrite !fmap_app, !elem_of_app. by rewrite Hsame.
Qed.

(** Records whose keys were all walked over leave nothing. *)
Lemma keepFirstFrom_known rows : ∀ earlier,
  (∀ r, r ∈ rows → key r ∈ key <$> earlier) →
  keepFirstFrom earlier rows = [].
Proof.
  induction rows as [|r rows IH]; intros earlier Hknown; [done|].
  cbn [keepFirstFrom].
  rewrite (proj2 (existsb_isDuplicate_elem_of earlier r))
    by (apply Hknown, elem_of_cons; by left).
  apply IH. intros x Hx. rewrite fmap_app, elem_of_app. left.
  apply Hknown, elem_of_cons. by right.
Qed.

Lemma removeDuplicates_sublist rows : removeDuplicates rows `sublist_of` rows.
Proof. rewrite removeDuplicates_keepFrom. apply keepFrom_sublist. Qed.

(** Every key of the input is a key of the output, and conversely. *)
Lemma removeDuplicates_keys rows k :
  k ∈ key <$> removeDuplicates rows ↔ k ∈ key <$> rows.
Proof.
  split.
  - intros (x & -> & Hx)%list_elem_of_fmap. apply list_elem_of_fmap.
    exists x. split; [done|].
    by eapply elem_of_sublist; [|apply removeDuplicates_sublist].
  - intros (r & -> & Hr)%list_elem_of_fmap.
    assert (classSize r (removeDuplicates rows) = 1) as Hone.
    { rewrite removeDuplicates_keepFirst. unfold keepFirstOccurrences.
      rewrite classSize_keepFirstFrom. pose proof (classSize_pos r rows Hr).
      destruct (classSize r rows); [lia|done]. }
    unfold classSize in Hone.
    destruct (filter (λ x, key x = key r) (removeDuplicates rows))
      as [|x l] eqn:E; [done|].
    assert (x ∈ filter (λ x, key x = key r) (removeDuplicates rows)) as Hx
      by (rewrite E; apply elem_of_cons; by left).
    apply list_elem_of_filter in Hx as [Hk Hx].
    apply list_elem_of_fmap. by exists x.
Qed.

(** X1.  The pass only deletes: its output is a subsequence of its input, the
    records left standing in their original order and with every field as it
    was, and it is never longer than the input. *)
Theorem X1_output_is_subsequence (rows : list DataRow) :
  removeDuplicates rows `sublist_of` rows
  ∧ length (removeDuplicates rows) ≤ length rows
  ∧ removeDuplicates rows ⊆ rows.
Proof.
  pose proof (removeDuplicates_sublist rows) as Hsub.
  split; [done|]. split; [by apply sublist_length|].
  intros r Hr. by eapply elem_of_sublist.
Qed.

(** X2.  The pass leaves a sequence as it is exactly when no two of its
    records carry the same (target, failureSummary) pair; in that case
    nothing is marked for deletion. *)
Theorem X2_unchanged_iff_no_duplicate_key (rows : list DataRow) :
  (removeDuplicates rows = rows ↔ NoDup (key <$> rows))
  ∧ (NoDup (key <$> rows) ↔ indicesToDelete rows = []).
Proof.
  assert (indicesToDelete rows = [] → removeDuplicates rows = rows) as Hnone.
  { intros Hm. rewrite removeDuplicates_keepFrom, Hm. apply keepFrom_all.
    intros j _. apply bool_decide_eq_true_2, not_elem_of_nil. }
  assert (removeDuplicates rows = rows → NoDup (key <$> rows)) as Hback.
  { intros Heq. rewrite <- Heq. apply removeDuplicates_NoDup_keys. }
  split; split.
  - done.
  - intros Hnd. by apply Hnone, indicesToDelete_NoDup_keys.
  - apply indicesToDelete_NoDup_keys.
  - intros Hm. by apply Hback, Hnone.
Qed.

(** X3.  The output has one row per distinct key of the input: its length is
    the number of different (target, failureSummary) pairs. *)
Theorem X3_output_length_is_number_of_keys (rows : list DataRow) :
  length (removeDuplicates rows)
  = size (list_to_set (key <$> rows) : gset (option string * option string)).
Proof.
  assert ((list_to_set (key <$> rows) : gset (option string * option string))
          = list_to_set (key <$> removeDuplicates rows)) as ->.
  { apply set_eq. intros k. rewrite !elem_of_list_to_set.
    by rewrite removeDuplicates_keys. }
  rewrite size_list_to_set by apply removeDuplicates_NoDup_keys.
  by rewrite length_fmap.
Qed.

Lemma inner_loop_same_keys o o' oi l l' :
  key o = key o' → key <$> l = key <$> l' →
  ∀ k st st', st.1 = st'.1 →
    (forEach_from (innerCallback o oi) k l st).1
    = (forEach_from (innerCallback o' oi) k l' st').1.
Proof.
  intros Ho. revert l'. induction l as [|x l IH]; intros [|x' l'] Hl k st st' Hst;
    try done.
  rewrite !fmap_cons in Hl.
  assert (key x = key x') as Hx by congruence.
  assert (key <$> l = key <$> l') as Hl' by congruence.
  simpl. apply IH; [done|].
  rewrite !innerCallback_indices, Hst.
  assert (isDuplicate o x = isDuplicate o' x') as ->; [|done].
  apply eq_true_iff_eq. rewrite !isDuplicate_key. by rewrite Ho, Hx.
Qed.

Lemma outer_loop_same_keys whole whole' l l' :
  key <$> whole = key <$> whole' → key <$> l = key <$> l' →
  ∀ k st st', st.1 = st'.1 →
    (forEach_from (outerCallback whole) k l st).1
    = (forEach_from (outerCallback whole') k l' st').1.
Proof.
  intros Hw. revert l'. induction l as [|o l IH]; intros [|o' l'] Hl k st st' Hst;
    try done.
  rewrite !fmap_cons in Hl.
  assert (key o = key o') as Ho by congruence.
  assert (key <$> l = key <$> l') as Hl' by congruence.
  simpl. apply IH; [done|].
  unfold outerCallback, forEach. by apply inner_loop_same_keys.
Qed.

(** X4.  Detection looks at nothing but the two key fields: two sequences
    with the same keys at the same positions have the same positions marked,
    in the same order and number, and lose the same positions, whatever their
    other fields (page included) hold. *)
Theorem X4_only_the_key_fields_matter (rows rows' : list DataRow) :
  key <$> rows = key <$> rows' →
  indicesToDelete rows = indicesToDelete rows'
  ∧ key <$> removeDuplicates rows = key <$> removeDuplicates rows'
  ∧ length (removeDuplicates rows) = length (removeDuplicates rows').
Proof.
  intros Hk.
  assert (indicesToDelete rows = indicesToDelete rows') as Hm.
  { unfold indicesToDelete, detect, forEach. by apply outer_loop_same_keys. }
  assert (key <$> removeDuplicates rows = key <$> removeDuplicates rows') as Hout.
  { rewrite !removeDuplicates_keepFrom, !keepFrom_fmap. by rewrite Hm, Hk. }
  split; [done|]. split; [done|].
  by rewrite <- (length_fmap key), Hout, length_fmap.
Qed.

Lemma X4_only_the_key_fields_matter_witness :
  indicesToDelete [rowA; rowB; rowC] = indicesToDelete [rowB; rowA; rowD].
Proof.
  apply (X4_only_the_key_fields_matter [rowA; rowB; rowC] [rowB; rowA; rowD]).
  reflexivity.
Defined.

(** Rows that bring no new key change nothing. *)
Lemma removeDuplicates_absorb a c :
  (∀ r, r ∈ c → key r ∈ key <$> a) →
  removeDuplicates (a ++ c) = removeDuplicates a.
Proof.
  intros Hc. rewrite !removeDuplicates_keepFirst.
  unfold keepFirstOccurrences. rewrite keepFirstFrom_app. simpl.
  rewrite (keepFirstFrom_known c a); [by rewrite app_nil_r|done].
Qed.

(** A sequence that starts with a second copy of its own beginning reduces
    as the sequence itself. *)
Lemma removeDuplicates_prefix_twice P Q :
  removeDuplicates (P ++ P ++ Q) = removeDuplicates (P ++ Q).
Proof.
  rewrite !removeDuplicates_keepFirst. unfold keepFirstOccurrences.
  rewrite (keepFirstFrom_app P (P ++ Q) []), (keepFirstFrom_app P Q []).
  f_equal. simpl. rewrite (keepFirstFrom_app P Q P).
  rewrite (keepFirstFrom_known P P), app_nil_l.
  - apply keepFirstFrom_same_keys. intros k.
    rewrite fmap_app, elem_of_app. tauto.
  - intros r Hr. apply list_elem_of_fmap. by exists r.
Qed.

(** What a second run loads when it finds the outputs of the first: the
    beginning of the sequence, the whole sequence again (the master list),
    the rest of the sequence and the reduced sequence (the work list). *)
Lemma removeDuplicates_reload P Q :
  removeDuplicates (P ++ (P ++ Q) ++ Q ++ removeDuplicates (P ++ Q))
  = removeDuplicates (P ++ Q).
Proof.
  replace (P ++ (P ++ Q) ++ Q ++ removeDuplicates (P ++ Q))
    with ((P ++ P ++ Q) ++ (Q ++ removeDuplicates (P ++ Q)))
    by (by rewrite <- !(assoc_L (++))).
  rewrite removeDuplicates_absorb; [apply removeDuplicates_prefix_twice|].
  intros r Hr.
  assert (key r ∈ key <$> (P ++ Q)) as Hk.
  { apply elem_of_app in Hr as [Hr|Hr].
    - apply list_elem_of_fmap. exists r. split; [reflexivity|].
      apply elem_of_app. right. exact Hr.
    - apply removeDuplicates_keys, list_elem_of_fmap. exists r.
      split; [reflexivity|exact Hr]. }
  rewrite fmap_app, elem_of_app. right. exact Hk.
Qed.

(** X5.  The pass over two sequences put end to end is the pass over the
    first, followed by the records of the pass over the second whose key does
    not occur in the first.  So rows that bring no new key change nothing,
    and a sequence followed by a copy of itself reduces as the sequence
    alone. *)
Theorem X5_pass_over_concatenation (a b : list DataRow) :
  removeDuplicates (a ++ b)
  = removeDuplicates a ++ filter (λ x, key x ∉ key <$> a) (removeDuplicates b)
  ∧ ((∀ r, r ∈ b → key r ∈ key <$> a) →
       removeDuplicates (a ++ b) = removeDuplicates a)
  ∧ removeDuplicates (a ++ a) = removeDuplicates a.
Proof.
  pose proof (removeDuplicates_absorb a) as Habsorb.
  split; [|split; [apply Habsorb|]].
  - rewrite !removeDuplicates_keepFirst. unfold keepFirstOccurrences.
    rewrite keepFirstFrom_app. simpl. f_equal.
    by rewrite <- (keepFirstFrom_filter b a []), app_nil_r.
  - apply Habsorb. intros r Hr. apply list_elem_of_fmap. by exists r.
Qed.

Lemma X5_pass_over_concatenation_witness :
  removeDuplicates ([rowA; rowC] ++ [rowB; rowD]) = removeDuplicates [rowA; rowC].
Proof.
  destruct (X5_pass_over_concatenation [rowA; rowC] [rowB; rowD]) as (_ & Habs & _).
  apply Habs. intros r Hr.
  apply elem_of_cons in Hr as [->|Hr]; [apply elem_of_cons; left; reflexivity|].
  apply elem_of_cons in Hr as [->|Hr];
    [apply elem_of_cons; right; apply elem_of_cons; left; reflexivity|].
  apply elem_of_nil in Hr. destruct Hr.
Defined.

(** * Further properties of the consolidation run *)

Section ConsolidationMore.
Variable readSheet : string → ReadResult.

(** What the loading loop has written when it is done. *)
Lemma loadAll_written files :
  written (loadAll readSheet files initialScript)
  = if lastEntryLoads readSheet files
    then [(masterPath, [flat_map (rowsOfEntry readSheet) files])]
    else [].
Proof.
  destruct files as [|file0 files0] using rev_ind; [done|]. clear IHfiles0.
  rename files0 into files, file0 into file.
  unfold lastEntryLoads. rewrite last_snoc.
  unfold loadAll, forEach. rewrite forEach_from_app. simpl.
  pose proof (load_loop readSheet files 0 initialScript
                (LastNumber (Z.of_nat (length (files ++ [file])) - 1)))
    as (Hd & _ & _ & _).
  pose proof (load_loop_before_last readSheet files
                (Z.of_nat (length (files ++ [file])) - 1) 0 initialScript)
    as (Hl & Hw & Hb); [rewrite length_app; simpl; lia|].
  simpl in Hd, Hl, Hw, Hb.
  destruct (forEach_from (fileCallback readSheet) 0 files
              (initialScript, LastNumber (Z.of_nat (length (files ++ [file])) - 1)))
    as [st1 li1].
  simpl in Hd, Hl, Hw, Hb. subst li1.
  unfold fileCallback. cbn [fst snd lastIndexIs].
  rewrite (bool_decide_eq_true_2 (_ = Z.of_nat _))
    by (rewrite length_app; simpl; lia).
  destruct (bool_decide (extname file = ".xlsx")) eqn:Eext; simpl; [|done].
  unfold appendDataToSheet.
  destruct (readSheet (joinDirectory file)) as [why|workbook] eqn:Eread;
    simpl; [done|].
  rewrite Hw, Hb, Hd, flat_map_app. simpl. unfold rowsOfEntry at 3.
  by rewrite Eext, Eread, app_nil_r.
Qed.

(** The files of a run: what the loading loop wrote, then the work list. *)
Lemma runScript_written files :
  written (runScript readSheet files)
  = (if lastEntryLoads readSheet files
     then [(masterPath, [flat_map (rowsOfEntry readSheet) files])]
     else [])
    ++ [(workPath, [removeDuplicates (flat_map (rowsOfEntry readSheet) files)])].
Proof.
  rewrite <- loadAll_written.
  unfold runScript, readdirCallback, dedupAndWrite. simpl.
  rewrite dedupStages_removeDuplicates, loadAll_sheetData.
  unfold loadAll, forEach.
  destruct (load_loop readSheet files 0 initialScript
              (LastNumber (Z.of_nat (length files) - 1)))
    as (_ & _ & Hf & _).
  simpl in Hf. by rewrite Hf.
Qed.
End ConsolidationMore.

(** X6.  The files a run writes are settled by the last entry of the
    listing alone.  The work list, with the reduced sequence in one sheet, is
    always written, and last.  The master list, with the whole concatenation
    in one sheet, is written before it exactly when the last entry has the
    extension [.xlsx] and can be read; no other file is ever written. *)
Theorem X6_files_written_by_a_run
    (readSheet : string → ReadResult) (files : list string) :
  let all := flat_map (rowsOfEntry readSheet) files in
  written (runScript readSheet files)
  = (if lastEntryLoads readSheet files then [(masterPath, [all])] else [])
    ++ [(workPath, [removeDuplicates all])]
  ∧ fileAt masterPath (written (runScript readSheet files))
    = (if lastEntryLoads readSheet files then Some [all] else None)
  ∧ fileAt workPath (written (runScript readSheet files))
    = Some [removeDuplicates all].
Proof.
  intros all. rewrite runScript_written. fold all.
  by destruct (lastEntryLoads readSheet files).
Qed.

Lemma flat_map_singleton {A B : Type} (f : A → list B) (x : A) :
  flat_map f [x] = f x.
Proof. simpl. apply app_nil_r. Qed.

Lemma rowsOfEntry_diskAfter readSheet (master work : Workbook) file :
  file ≠ "master-list.xlsx" → file ≠ "work-list.xlsx" →
  rowsOfEntry (diskAfter readSheet [(masterPath, master); (workPath, work)]) file
  = rowsOfEntry readSheet file.
Proof.
  intros Hm Hw. unfold rowsOfEntry, diskAfter, fileAt, joinDirectory.
  rewrite !filter_cons, filter_nil. cbn [fst].
  rewrite decide_False.
  2:{ unfold masterPath. simpl. intros [= Heq]. by apply Hm. }
  rewrite decide_False; [done|].
  unfold workPath. simpl. intros [= Heq]. by apply Hw.
Qed.

Lemma flat_map_rowsOfEntry_diskAfter readSheet (master work : Workbook) files :
  "master-list.xlsx" ∉ files → "work-list.xlsx" ∉ files →
  flat_map (rowsOfEntry (diskAfter readSheet [(masterPath, master); (workPath, work)])) files
  = flat_map (rowsOfEntry readSheet) files.
Proof.
  induction files as [|file files IH]; intros Hm Hw; [done|].
  apply not_elem_of_cons in Hm as [Hm1 Hm2].
  apply not_elem_of_cons in Hw as [Hw1 Hw2].
  simpl. rewrite IH by done. by rewrite rowsOfEntry_diskAfter.
Qed.

(** X7.  A second run over the directory left by a first run, the master
    list listed anywhere among the original entries and the work list listed
    last: the work list written is the one of the first run, and the master
    list now holds every original row twice and the rows of the old work list
    on top. *)
Theorem X7_second_run_on_own_outputs
    (readSheet : string → ReadResult) (before middle : list string) :
  let files := before ++ middle in
  let all := flat_map (rowsOfEntry readSheet) files in
  let disk2 := diskAfter readSheet (written (runScript readSheet files)) in
  let listing2 := before ++ ["master-list.xlsx"] ++ middle ++ ["work-list.xlsx"] in
  lastEntryLoads readSheet files = true →
  "master-list.xlsx" ∉ files → "work-list.xlsx" ∉ files →
  written (runScript disk2 listing2)
  = [(masterPath,
      [flat_map (rowsOfEntry readSheet) before ++ all
       ++ flat_map (rowsOfEntry readSheet) middle ++ removeDuplicates all]);
     (workPath, [removeDuplicates all])].
Proof.
  intros files all disk2 listing2 Hlast Hm Hw.
  assert (written (runScript readSheet files)
          = [(masterPath, [all]); (workPath, [removeDuplicates all])]) as Hfirst.
  { rewrite runScript_written, Hlast. done. }
  unfold disk2. rewrite Hfirst.
  set (disk := diskAfter readSheet
                 [(masterPath, [all]); (workPath, [removeDuplicates all])]).
  assert (rowsOfEntry disk "master-list.xlsx" = all) as Hrm by done.
  assert (rowsOfEntry disk "work-list.xlsx" = removeDuplicates all) as Hrw by done.
  assert (flat_map (rowsOfEntry disk) listing2
          = flat_map (rowsOfEntry readSheet) before ++ all
            ++ flat_map (rowsOfEntry readSheet) middle ++ removeDuplicates all)
    as Hall2.
  { unfold listing2, files in *. apply not_elem_of_app in Hm as [? ?].
    apply not_elem_of_app in Hw as [? ?].
    rewrite !flat_map_app, !flat_map_singleton, Hrm, Hrw.
    unfold disk. by rewrite !flat_map_rowsOfEntry_diskAfter by done. }
  assert (lastEntryLoads disk listing2 = true) as Hlast2.
  { unfold lastEntryLoads, listing2.
    rewrite !(assoc_L (++)), last_snoc. done. }
  rewrite runScript_written, Hlast2, Hall2.
  assert (removeDuplicates
            (flat_map (rowsOfEntry readSheet) before ++ all
             ++ flat_map (rowsOfEntry readSheet) middle ++ removeDuplicates all)
          = removeDuplicates all) as ->; [|done].
  unfold all, files. rewrite flat_map_app. apply removeDuplicates_reload.
Qed.

Lemma X7_second_run_on_own_outputs_witness :
  written (runScript (diskAfter diskHome (written (runScript diskHome ["home.xlsx"])))
             ["home.xlsx"; "master-list.xlsx"; "work-list.xlsx"])
  = [(masterPath, [[rowA; rowB; rowC] ++ [rowA; rowB; rowC] ++ [] ++ [rowA; rowC]]);
     (workPath, [[rowA; rowC]])].
Proof.
  apply (X7_second_run_on_own_outputs diskHome ["home.xlsx"] []).
  - reflexivity.
  - intros Hin. apply elem_of_cons in Hin as [Heq|Hin]; [discriminate Heq|].
    apply elem_of_nil in Hin. destruct Hin.
  - intros Hin. apply elem_of_cons in Hin as [Heq|Hin]; [discriminate Heq|].
    apply elem_of_nil in Hin. destruct Hin.
Defined.

(** ** The console of a run *)

Lemma forEach_from_inv {A St : Type} (P : St → Prop) (f : A → nat → St → St) :
  (∀ x i s, P s → P (f x i s)) →
  ∀ l i s, P s → P (forEach_from f i l s).
Proof.
  intros Hf l. induction l as [|x l IH]; intros i s Hs; simpl; [done|].
  apply IH. by apply Hf.
Qed.

(** A callback that only appends to the console makes a loop that only
    appends to the console. *)
Lemma forEach_from_console {A : Type} (f : A → nat → DetectState → DetectState) :
  (∀ x i a c, f x i (a, c) = ((f x i (a, [])).1, c ++ (f x i (a, [])).2)) →
  ∀ l i a c,
    forEach_from f i l (a, c)
    = ((forEach_from f i l (a, [])).1, c ++ (forEach_from f i l (a, [])).2).
Proof.
  intros Hf l. induction l as [|x l IH]; intros i a c; simpl.
  - by rewrite app_nil_r.
  - rewrite (Hf x i a c).
    destruct (f x i (a, [])) as [a' e]. cbn [fst snd].
    rewrite (IH (S i) a' (c ++ e)), (IH (S i) a' e).
    cbn [fst snd]. by rewrite <- (assoc_L (++)).
Qed.

Lemma innerCallback_console o oi x xi a c :
  innerCallback o oi x xi (a, c)
  = ((innerCallback o oi x xi (a, [])).1, c ++ (innerCallback o oi x xi (a, [])).2).
Proof.
  unfold innerCallback. cbn [fst snd].
  destruct (oi <? xi)%nat; [|by rewrite app_nil_r].
  destruct (strictEq (target o) (target x)); [|by rewrite app_nil_r].
  destruct (strictEq (failureSummary o) (failureSummary x));
    [done|by rewrite app_nil_r].
Qed.

Lemma detect_console rows console :
  (detect rows console).2 = console ++ (detect rows []).2.
Proof.
  unfold detect, forEach.
  rewrite (forEach_from_console (outerCallback rows)); [done|].
  intros o oi a c. unfold outerCallback, forEach.
  apply forEach_from_console. apply innerCallback_console.
Qed.

(** Three console entries go with every index pushed. *)
Lemma detect_console_length rows :
  length (detect rows []).2 = 3 * length (indicesToDelete rows).
Proof.
  unfold indicesToDelete, detect, forEach.
  apply (forEach_from_inv (λ st : DetectState, length st.2 = 3 * length st.1));
    [|done].
  intros o oi s Hs. unfold outerCallback, forEach.
  apply (forEach_from_inv (λ st : DetectState, length st.2 = 3 * length st.1));
    [|done].
  intros x xi t Ht. unfold innerCallback.
  destruct (oi <? xi)%nat; [|done].
  destruct (strictEq (target o) (target x)); [|done].
  destruct (strictEq (failureSummary o) (failureSummary x)); [|done].
  cbn [fst snd]. rewrite !length_app. simpl. lia.
Qed.

Lemma splice_loop_console ds : ∀ (rows : list DataRow) console i,
  (forEach_from deleteCallback i ds (rows, console)).2
  = console ++ (LogDeleting <$> ds).
Proof.
  induction ds as [|d ds IH]; intros rows console i; simpl.
  - by rewrite app_nil_r.
  - unfold deleteCallback at 2. cbn [fst snd]. rewrite IH.
    by rewrite <- (assoc_L (++)).
Qed.

(** Every splice of the loop removes one row. *)
Lemma splice_loop_length ds :
  StronglySorted (λ a b, b < a) ds →
  ∀ (rows : list DataRow) console i,
    (∀ d, d ∈ ds → d < length rows) →
    length (forEach_from deleteCallback i ds (rows, console)).1 + length ds
    = length rows.
Proof.
  induction 1 as [|d ds Hs IH Hall]; intros rows console i Hlt; simpl; [lia|].
  unfold deleteCallback at 2. cbn [fst snd]. unfold splice1.
  assert (d < length rows) as Hd by (apply Hlt, elem_of_cons; by left).
  assert (length (delete d rows) = length rows - 1) as Hdel
    by (apply length_delete; by apply lookup_lt_is_Some_2).
  pose proof (IH (delete d rows) (console ++ [LogDeleting d]) (S i)) as Hrec.
  rewrite Hdel in Hrec.
  assert (∀ e, e ∈ ds → e < length rows - 1) as Hin.
  { intros e He. rewrite Forall_forall in Hall. specialize (Hall e He). lia. }
  specialize (Hrec Hin). lia.
Qed.

Lemma dedupStages_console rows console :
  (dedupStages rows console).2
  = console ++ (detect rows []).2
    ++ (LogDeleting <$> sortDescending (uniqueArray (indicesToDelete rows))).
Proof.
  unfold dedupStages, forEach. cbv zeta.
  rewrite splice_loop_console, detect_indices, detect_console.
  by rewrite <- (assoc_L (++)).
Qed.

Lemma marked_in_range rows j :
  j ∈ sortDescending (uniqueArray (indicesToDelete rows)) → j < length rows.
Proof.
  rewrite elem_of_sortDescending, elem_of_uniqueArray, elem_of_indicesToDelete.
  intros (i & o & x & _ & Hx & _). by eapply lookup_lt_Some.
Qed.

(** X8.  The console of a run, entry by entry: the loaded rows; three
    entries for every pair found by the detection; one "deleting" entry for
    every row removed, in descending order of position; and the three closing
    entries, of which the one labelled master list and the one labelled work
    list both report the number of rows of the work list. *)
Theorem X8_console_of_a_run
    (readSheet : string → ReadResult) (files : list string) :
  let all := flat_map (rowsOfEntry readSheet) files in
  let unique := sortDescending (uniqueArray (indicesToDelete all)) in
  let n := length (removeDuplicates all) in
  console (runScript readSheet files)
  = [LogSheetData all] ++ (detect all []).2 ++ (LogDeleting <$> unique)
    ++ [LogProcessingComplete; LogMasterList n; LogWorkList n]
  ∧ length (detect all []).2 = 3 * length (indicesToDelete all)
  ∧ StronglySorted (λ a b, b < a) unique
  ∧ n + length unique = length all.
Proof.
  intros all unique n. split; [|split; [|split]].
  - unfold runScript, readdirCallback, dedupAndWrite. simpl.
    rewrite dedupStages_removeDuplicates, dedupStages_console.
    rewrite loadAll_sheetData. fold all unique n.
    unfold loadAll, forEach.
    destruct (load_loop readSheet files 0 initialScript
                (LastNumber (Z.of_nat (length files) - 1)))
      as (_ & Hc & _).
    simpl in Hc. rewrite Hc. simpl. by rewrite <- !(assoc_L (++)).
  - apply detect_console_length.
  - apply sortDescending_strict, uniqueArray_NoDup.
  - unfold n, removeDuplicates, dedupStages, forEach. cbv zeta.
    rewrite detect_indices. apply splice_loop_length.
    + apply sortDescending_strict, uniqueArray_NoDup.
    + apply marked_in_range.
Qed.

(** * Further properties of the collection suites *)

Lemma flatten_cons slug ua element violations :
  flatten slug ua (element :: violations)
  = map (dataRow slug ua element) (Axe.nodes element) ++ flatten slug ua violations.
Proof. done. Qed.

(** X9.  The two nested loops of a page visit append to the array, in scan
    order, one record per (violation, node) pair and nothing else: as many
    records as the violations have nodes together, each with the slug of the
    visit as page, its user agent as device and a target that is present. *)
Theorem X9_one_record_per_node
    (slug ua : string) (violations : list Axe.Result) (sheetData : list DataRow) :
  pushViolations slug ua violations sheetData
  = sheetData ++ flatten slug ua violations
  ∧ length (flatten slug ua violations)
    = sum_list ((λ element, length (Axe.nodes element)) <$> violations)
  ∧ Forall (λ r, page r = slug ∧ device r = ua ∧ is_Some (target r))
      (flatten slug ua violations)
  ∧ (flatten slug ua violations = []
     ↔ Forall (λ element, Axe.nodes element = []) violations).
Proof.
  split; [apply pushViolations_flatten|]. split; [|split].
  - induction violations as [|element violations IH]; [done|].
    rewrite flatten_cons, length_app, length_map, IH. done.
  - induction violations as [|element violations IH]; [constructor|].
    rewrite flatten_cons. apply Forall_app. split; [|done].
    apply Forall_forall. intros r Hr.
    apply list_elem_of_In, in_map_iff in Hr as (node & <- & _).
    simpl. by eauto.
  - induction violations as [|element violations IH]; [done|].
    rewrite flatten_cons, Forall_cons, <- IH. split.
    + intros [Hm Hf]%app_eq_nil. split; [|done].
      by destruct (Axe.nodes element).
    + intros [-> ->]. done.
Qed.

Lemma Tfg_visits_files pages : ∀ w,
  Tfg.files (Tfg.visits pages w) = Tfg.files w ++ flat_map tfgFileOf pages.
Proof.
  induction pages as [|[[[slug ua] projectName] violations] pages IH]; intros w.
  - simpl. by rewrite app_nil_r.
  - cbn [Tfg.visits flat_map]. rewrite IH, Tfg_visit_writes_local_rows.
    by rewrite <- (assoc_L (++)).
Qed.

Lemma flat_map_Permutation {A B : Type} (f : A → list B) (l l' : list A) :
  l ≡ₚ l' → flat_map f l ≡ₚ flat_map f l'.
Proof.
  induction 1 as [|x l l' _ IH|x y l|l l' l'' _ IH1 _ IH2]; simpl.
  - reflexivity.
  - by apply Permutation_app_head.
  - rewrite !(assoc_L (++)). apply Permutation_app_tail, Permutation_app_comm.
  - by etrans.
Qed.

(** X10.  tfg: page visits do not see each other.  Whatever visits one
    instance of the module runs, in whatever order, the files written are,
    page by page, the file of that page alone: none for a page whose scan
    flattens to nothing, otherwise one that holds exactly the records of that
    page's scan. *)
Theorem X10_tfg_visits_are_independent
    (pages : list (string * string * string * list Axe.Result)) (w : Tfg.World) :
  Tfg.files (Tfg.visits pages w) = Tfg.files w ++ flat_map tfgFileOf pages
  ∧ (∀ pages', pages' ≡ₚ pages →
       Tfg.files (Tfg.visits pages' Tfg.initial)
       ≡ₚ Tfg.files (Tfg.visits pages Tfg.initial))
  ∧ Forall (λ p, ∀ f, f ∈ tfgFileOf p → f.2 = flatten p.1.1.1 p.1.1.2 p.2 ∧ f.2 ≠ [])
      pages.
Proof.
  split; [apply Tfg_visits_files|]. split.
  - intros pages' Hp. rewrite !Tfg_visits_files. simpl.
    by apply flat_map_Permutation.
  - apply Forall_forall. intros [[[slug ua] projectName] violations] _ f Hf.
    unfold tfgFileOf in Hf. simpl.
    destruct (bool_decide (flatten slug ua violations = [])) eqn:E;
      [by apply elem_of_nil in Hf|].
    apply list_elem_of_singleton in Hf as ->. simpl.
    split; [done|]. by apply bool_decide_eq_false in E.
Qed.

(** X11.  tfg: the outcome of a test and its file.  The test passes exactly
    when the scan reports no violation, and then no file is written; a file is
    written exactly when some violation has a node, and then the test fails.
    A scan whose violations all lack nodes fails without a file. *)
Theorem X11_tfg_outcome_and_file
    (slug ua projectName : string) (violations : list Axe.Result) (w : Tfg.World) :
  let r := Tfg.visit slug ua projectName violations w in
  (r.2 = Passed ↔ violations = [])
  ∧ (Tfg.files r.1 = Tfg.files w ↔ flatten slug ua violations = [])
  ∧ (r.2 = Passed → Tfg.files r.1 = Tfg.files w)
  ∧ (Tfg.files r.1 ≠ Tfg.files w → r.2 = Failed).
Proof.
  intros r.
  assert (r.2 = Passed ↔ violations = []) as Hpass.
  { unfold r, Tfg.visit. cbn [snd]. by destruct violations. }
  assert (Tfg.files r.1 = Tfg.files w ↔ flatten slug ua violations = []) as Hfile.
  { unfold r. rewrite Tfg_visit_writes_local_rows.
    destruct (bool_decide (flatten slug ua violations = [])) eqn:E.
    - apply bool_decide_eq_true in E. by rewrite app_nil_r.
    - apply bool_decide_eq_false in E. split; [|done].
      intros Heq. apply (f_equal length) in Heq.
      rewrite length_app in Heq. simpl in Heq. lia. }
  split; [done|]. split; [done|]. split.
  - intros Hp. apply Hfile. apply Hpass in Hp. by rewrite Hp.
  - intros Hne. destruct violations as [|v vs]; [|done].
    exfalso. by apply Hne, Hfile.
Qed.

Lemma sanitize_matches stemSource :
  stemSource ≠ "" → matchesSafeName (sanitize stemSource) = true
                    ∧ hasSeparator (sanitize stemSource) = false.
Proof.
  intros Hne. pose proof (sanitize_allSafe stemSource) as Hsafe.
  split; [|by apply allSafe_no_separator].
  unfold matchesSafeName. rewrite Hsafe, andb_true_r.
  apply negb_true_iff, bool_decide_eq_false.
  destruct stemSource; [done|]. simpl. discriminate.
Qed.

Lemma Tfg_destination_nonempty slug projectName :
  Tfg.destination slug projectName ≠ "".
Proof.
  intros Hempty. apply (f_equal String.length) in Hempty.
  unfold Tfg.destination in Hempty. rewrite !append_length in Hempty.
  simpl in Hempty. lia.
Qed.

(** X12.  tfg: every file written by any run of visits lies directly in
    [spreadsheets/], ends in [.xlsx], and has a stem that matches
    [^[A-Za-z0-9_]+$]: no path separator, dot or white space of a slug or of
    a project name reaches the file name. *)
Theorem X12_tfg_file_names_are_safe
    (pages : list (string * string * string * list Axe.Result)) :
  Forall (λ f : FileWrite,
            ∃ stem, f.1 = String.append "spreadsheets/" (String.append stem ".xlsx")
                    ∧ stemOf f.1 = stem
                    ∧ matchesSafeName stem = true
                    ∧ hasSeparator stem = false)
    (Tfg.files (Tfg.visits pages Tfg.initial)).
Proof.
  rewrite Tfg_visits_files. simpl. apply Forall_forall. intros f Hf.
  apply list_elem_of_In, in_flat_map in Hf
    as ([[[slug ua] projectName] violations] & _ & Hf).
  unfold tfgFileOf in Hf.
  destruct (bool_decide (flatten slug ua violations = [])); [done|].
  destruct Hf as [<-|[]]. cbn [fst].
  exists (sanitize (Tfg.destination slug projectName)).
  split; [done|]. split; [apply stemOf_path|].
  apply sanitize_matches, Tfg_destination_nonempty.
Qed.

(** X13.  The sanitizer keeps the length of the name and every letter and
    digit in its place, turns every other character into an underscore, is
    idempotent, and leaves a name unchanged exactly when the name is made of
    letters, digits and underscores only. *)
Theorem X13_sanitize (slug : string) :
  String.length (sanitize slug) = String.length slug
  ∧ (∀ i c, String.get i slug = Some c →
       String.get i (sanitize slug) = Some (if isAlnum c then c else "_"%char))
  ∧ sanitize (sanitize slug) = sanitize slug
  ∧ (sanitize slug = slug ↔ allSafe slug = true).
Proof.
  split; [apply sanitize_length|]. split; [|split].
  - induction slug as [|a slug IH]; intros i c Hget; [done|].
    destruct i as [|i]; simpl in *; [by injection Hget as ->|by apply IH].
  - induction slug as [|a slug IH]; [done|]. simpl. rewrite IH.
    destruct (isAlnum a) eqn:E; [by rewrite E|done].
  - induction slug as [|a slug IH]; [done|]. simpl. split.
    + intros [= Ha Hs]. apply IH in Hs. rewrite Hs, andb_true_r.
      destruct (isAlnum a); [done|]. subst a. done.
    + intros [Ha Hs]%andb_true_iff. apply IH in Hs. rewrite Hs. f_equal.
      destruct (isAlnum a); [done|]. simpl in Ha.
      by apply bool_decide_eq_true in Ha.
Qed.

Lemma replaceSpaceRuns_noSpace s : ∀ inRun, noSpace (replaceSpaceRuns inRun s) = true.
Proof.
  induction s as [|c s IH]; intros inRun; [done|]. simpl.
  destruct (isSpace c) eqn:E.
  - destruct inRun; [apply IH|]. simpl. by rewrite IH.
  - simpl. by rewrite E, IH.
Qed.

(** X14.  The replacement of white-space runs in the project name leaves no
    white-space character, never lengthens the name, and changes nothing in a
    name without white space. *)
Theorem X14_replaceSpaceRuns (browserName : string) :
  noSpace (replaceSpaceRuns false browserName) = true
  ∧ String.length (replaceSpaceRuns false browserName) ≤ String.length browserName
  ∧ (noSpace browserName = true → replaceSpaceRuns false browserName = browserName).
Proof.
  split; [apply replaceSpaceRuns_noSpace|]. split.
  - generalize false. induction browserName as [|c s IH]; intros inRun; [done|].
    simpl. destruct (isSpace c).
    + destruct inRun; simpl; [specialize (IH true); lia|].
      specialize (IH true). lia.
    + simpl. specialize (IH false). lia.
  - generalize false. induction browserName as [|c s IH]; intros inRun Hn; [done|].
    simpl in *. apply andb_true_iff in Hn as [Hc Hs].
    apply negb_true_iff in Hc. rewrite Hc. f_equal. by apply IH.
Qed.

Lemma X14_replaceSpaceRuns_witness :
  replaceSpaceRuns false "chromium" = "chromium".
Proof.
  destruct (X14_replaceSpaceRuns "chromium") as (_ & _ & Hid).
  apply Hid. reflexivity.
Defined.

Lemma X2_unchanged_iff_no_duplicate_key_witness :
  removeDuplicates [rowA; rowC; rowE] = [rowA; rowC; rowE].
Proof.
  apply (X2_unchanged_iff_no_duplicate_key [rowA; rowC; rowE]).
  vm_compute. repeat constructor; rewrite ?elem_of_cons, elem_of_nil;
    intros Hin; repeat destruct Hin as [Hin|Hin]; try discriminate Hin; done.
Defined.

Lemma X9_one_record_per_node_witness :
  flatten "contact" userAgent [Axe.mkResult "r" None [] "d" "h" "u" []] = [].
Proof.
  apply (X9_one_record_per_node "contact" userAgent
           [Axe.mkResult "r" None [] "d" "h" "u" []] []).
  repeat constructor.
Defined.

Lemma X10_tfg_visits_are_independent_witness :
  Tfg.files (Tfg.visits [("contact", userAgent, "chromium", [violationLabel]);
                         ("studio", userAgent, "chromium", [violationImageAlt])]
               Tfg.initial)
  ≡ₚ Tfg.files (Tfg.visits [("studio", userAgent, "chromium", [violationImageAlt]);
                            ("contact", userAgent, "chromium", [violationLabel])]
                  Tfg.initial).
Proof.
  destruct (X10_tfg_visits_are_independent
              [("studio", userAgent, "chromium", [violationImageAlt]);
               ("contact", userAgent, "chromium", [violationLabel])] Tfg.initial)
    as (_ & Hperm & _).
  apply Hperm. apply perm_swap.
Defined.

Lemma X11_tfg_outcome_and_file_witness :
  Tfg.files (Tfg.visit "contact" userAgent "chromium" [] Tfg.initial).1
  = Tfg.files Tfg.initial.
Proof.
  destruct (X11_tfg_outcome_and_file "contact" userAgent "chromium" [] Tfg.initial)
    as (_ & _ & Hpass & _).
  apply Hpass. reflexivity.
Defined.

Lemma X13_sanitize_witness :
  String.get 12 (sanitize "case-studies/allianz-trade/") = Some "_"%char
  ∧ sanitize "home_chromium" = "home_chromium".
Proof.
  split.
  - destruct (X13_sanitize "case-studies/allianz-trade/") as (_ & Hget & _).
    apply (Hget 12 "/"%char). reflexivity.
  - destruct (X13_sanitize "home_chromium") as (_ & _ & _ & Hfix).
    apply Hfix. reflexivity.
Defined.

(** ** ada and at-scale: the module-level array *)



Section AtScaleVisit.
Variables (slug ua : string).
Hypothesis slug_nonempty : slug ≠ "".
Hypothesis slug_not_warwick : slug ≠ "loc/warwick-pizza/".
Hypothesis slug_not_catering : slug ≠ "loc/catering-inquiry".

Lemma AtScale_violationCallback element i w :
  AtScale.violationCallback ua element i (slug, w)
  = (slug,
     AtScale.mkWorld
       (AtScale.sheetData w ++ map (dataRow slug ua element) (Axe.nodes element))
       (AtScale.files w
        ++ [(String.append "spreadsheets/" (String.append (sanitize slug) ".xlsx"),
             AtScale.sheetData w ++ map (dataRow slug ua element) (Axe.nodes element))])).
Proof.
  unfold AtScale.violationCallback. cbn [fst snd].
  rewrite (bool_decide_eq_false_2 _ slug_not_warwick).
  rewrite (bool_decide_eq_false_2 _ slug_not_catering).
  rewrite (bool_decide_eq_false_2 _ slug_nonempty).
  by rewrite pushNodes_app.
Qed.

Lemma AtScale_loop violations : ∀ i w,
  let r := forEach_from (AtScale.violationCallback ua) i violations (slug, w) in
  r.1 = slug
  ∧ AtScale.sheetData r.2 = AtScale.sheetData w ++ flatten slug ua violations
  ∧ AtScale.files r.2
    = AtScale.files w
      ++ map (λ k, (String.append "spreadsheets/" (String.append (sanitize slug) ".xlsx"),
                    AtScale.sheetData w ++ flatten slug ua (take (S k) violations)))
           (seq 0 (length violations)).
Proof.
  induction violations as [|element violations IH]; intros i w.
  - simpl. by rewrite !app_nil_r.
  - cbn [forEach_from]. rewrite AtScale_violationCallback.
    destruct (IH (S i)
                (AtScale.mkWorld
                   (AtScale.sheetData w ++ map (dataRow slug ua element) (Axe.nodes element))
                   (AtScale.files w
                    ++ [(String.append "spreadsheets/" (String.append (sanitize slug) ".xlsx"),
                         AtScale.sheetData w
                         ++ map (dataRow slug ua element) (Axe.nodes element))])))
      as (Hs & Hd & Hf).
    cbv zeta. rewrite Hs, Hd, Hf. cbn [AtScale.sheetData AtScale.files].
    split; [done|]. split; [by rewrite flatten_cons, <- (assoc_L (++))|].
    rewrite <- (assoc_L (++)). f_equal.
    cbn [length seq map]. rewrite <- seq_shift, map_map.
    cbn [take]. rewrite flatten_cons. simpl flatten at 1. rewrite app_nil_r.
    f_equal. apply map_ext. intros k. cbn [take].
    by rewrite flatten_cons, <- (assoc_L (++)).
Qed.
End AtScaleVisit.

(** X16.  at-scale: the writer is called inside the loop over the
    violations.  For a slug that is not empty (and is not one of the two
    rewritten ones) a visit writes once per violation, every time at the path
    of the sanitized slug, the k-th time with the module-level array as it
    stands after k violations; so no file for a scan without violations, and
    the file left on disk holds the array as it was before the visit followed
    by all records of the visit. *)
Theorem X16_atscale_writes_once_per_violation
    (slug ua : string) (violations : list Axe.Result) (w : AtScale.World) :
  slug ≠ "" → slug ≠ "loc/warwick-pizza/" → slug ≠ "loc/catering-inquiry" →
  let r := AtScale.visit slug ua violations w in
  let path := String.append "spreadsheets/" (String.append (sanitize slug) ".xlsx") in
  AtScale.sheetData r.1 = AtScale.sheetData w ++ flatten slug ua violations
  ∧ AtScale.files r.1
    = AtScale.files w
      ++ map (λ k, (path, AtScale.sheetData w ++ flatten slug ua (take (S k) violations)))
           (seq 0 (length violations))
  ∧ length (AtScale.files r.1) = length (AtScale.files w) + length violations
  ∧ (violations ≠ [] →
       last (AtScale.files r.1)
       = Some (path, AtScale.sheetData w ++ flatten slug ua violations)).
Proof.
  intros Hne Hw Hc r path.
  destruct (AtScale_loop slug ua Hne Hw Hc violations 0 w) as (_ & Hd & Hf).
  unfold r, AtScale.visit, forEach. cbn [fst]. fold path in Hf.
  split; [done|]. split; [done|]. split.
  - by rewrite Hf, length_app, length_map, length_seq.
  - intros Hv. rewrite Hf.
    destruct violations as [|v vs] using rev_ind; [done|]. clear IHvs.
    rewrite length_app. simpl length. rewrite Nat.add_1_r, seq_S, map_app.
    simpl. rewrite (assoc_L (++)), last_snoc.
    by rewrite take_ge by (rewrite length_app; simpl; lia).
Qed.

Lemma X16_atscale_writes_once_per_violation_witness :
  length (AtScale.files
            (AtScale.visit "news-ideas/" userAgent
               [violationImageAlt; violationLabel] AtScale.initial).1)
  = length (AtScale.files AtScale.initial) + 2.
Proof.
  apply (X16_atscale_writes_once_per_violation "news-ideas/" userAgent
           [violationImageAlt; violationLabel] AtScale.initial);
    discriminate.
Defined.

Lemma TfgStartup_calls_after_first m pages st :
  TfgStartup.startupPrinted st = true → TfgStartup.calls m pages st = st.
Proof.
  revert st. induction m as [|m IH]; intros st Hst; [done|]. simpl.
  unfold TfgStartup.printStartupInfo. rewrite Hst. simpl. by apply IH.
Qed.

(** X17.  tfg: the start-up banner is printed by the first test that one
    instance of the module runs and by no later one: after one call or after
    many the console holds the same five lines, and a call made when the flag
    is set changes nothing. *)
Theorem X17_banner_printed_once (n pages : nat) :
  TfgStartup.calls (S n) pages TfgStartup.initial
  = TfgStartup.printStartupInfo pages TfgStartup.initial
  ∧ length (TfgStartup.console (TfgStartup.calls (S n) pages TfgStartup.initial)) = 5
  ∧ ∀ m st, TfgStartup.calls m pages (TfgStartup.printStartupInfo pages st)
            = TfgStartup.printStartupInfo pages st.
Proof.
  assert (∀ m st, TfgStartup.calls m pages (TfgStartup.printStartupInfo pages st)
                  = TfgStartup.printStartupInfo pages st) as Hlater.
  { intros m st. apply TfgStartup_calls_after_first.
    unfold TfgStartup.printStartupInfo. by destruct (TfgStartup.startupPrinted st) eqn:E. }
  assert (TfgStartup.calls (S n) pages TfgStartup.initial
          = TfgStartup.printStartupInfo pages TfgStartup.initial) as Hfirst
    by apply Hlater.
  split; [done|]. split; [by rewrite Hfirst|done].
Qed.

(** ** How often a position is marked *)

Lemma count_snoc (j k : nat) (l : list nat) :
  length (filter (λ e, e = j) (l ++ [k]))
  = length (filter (λ e, e = j) l) + (if decide (k = j) then 1 else 0).
Proof.
  rewrite filter_app, length_app, filter_cons, filter_nil.
  by destruct (decide (k = j)).
Qed.

Lemma inner_loop_count o oi j l : ∀ k st,
  length (filter (λ e, e = j) (forEach_from (innerCallback o oi) k l st).1)
  = length (filter (λ e, e = j) st.1)
    + match l !! (j - k) with
      | Some x => if (k <=? j)%nat && (oi <? j)%nat && isDuplicate o x then 1 else 0
      | None => 0
      end.
Proof.
  induction l as [|x l IH]; intros k st.
  - cbn [forEach_from]. rewrite lookup_nil. lia.
  - cbn [forEach_from]. rewrite IH, innerCallback_indices.
    destruct (lt_eq_lt_dec j k) as [[Hlt| ->]|Hgt].
    + replace (j - k) with 0 by lia. replace (j - S k) with 0 by lia.
      replace (k <=? j)%nat with false by (symmetry; apply Nat.leb_gt; lia).
      replace (S k <=? j)%nat with false by (symmetry; apply Nat.leb_gt; lia).
      cbn [lookup list_lookup andb].
      assert (length (filter (λ e, e = j)
                        (if (oi <? k)%nat && isDuplicate o x then st.1 ++ [k] else st.1))
              = length (filter (λ e, e = j) st.1)) as ->.
      { destruct ((oi <? k)%nat && isDuplicate o x); [|done].
        rewrite count_snoc, decide_False by lia. lia. }
      destruct (l !! 0); simpl; lia.
    + rewrite Nat.sub_diag. replace (k - S k) with 0 by lia.
      replace (S k <=? k)%nat with false by (symmetry; apply Nat.leb_gt; lia).
      rewrite Nat.leb_refl. cbn [lookup list_lookup andb].
      assert (match l !! 0 with Some _ => 0 | None => 0 end = 0) as Hz
        by (by destruct (l !! 0)).
      destruct (l !! 0); cbn [andb];
        (destruct ((oi <? k)%nat && isDuplicate o x);
         [rewrite count_snoc, decide_True by done; lia|lia]).
    + replace (j - k) with (S (j - S k)) by lia. cbn [lookup list_lookup].
      replace (k <=? j)%nat with true by (symmetry; apply Nat.leb_le; lia).
      replace (S k <=? j)%nat with true by (symmetry; apply Nat.leb_le; lia).
      assert (length (filter (λ e, e = j)
                        (if (oi <? k)%nat && isDuplicate o x then st.1 ++ [k] else st.1))
              = length (filter (λ e, e = j) st.1)) as ->; [|done].
      destruct ((oi <? k)%nat && isDuplicate o x); [|done].
      rewrite count_snoc, decide_False by lia. lia.
Qed.

Lemma outer_loop_count whole j x l :
  whole !! j = Some x →
  ∀ k st,
    length (filter (λ e, e = j) (forEach_from (outerCallback whole) k l st).1)
    = length (filter (λ e, e = j) st.1)
      + length (filter (λ o, key o = key x) (take (j - k) l)).
Proof.
  intros Hx. induction l as [|o l IH]; intros k st.
  - simpl. rewrite take_nil, filter_nil. simpl. lia.
  - cbn [forEach_from]. rewrite IH. unfold outerCallback, forEach.
    rewrite inner_loop_count, Nat.sub_0_r, Hx. cbn [Nat.leb andb].
    destruct (decide (k < j)) as [Hlt|Hge].
    + replace (j - k) with (S (j - S k)) by lia. cbn [take].
      rewrite filter_cons.
      replace (k <? j)%nat with true by (symmetry; by apply Nat.ltb_lt).
      destruct (isDuplicate o x) eqn:E.
      * apply isDuplicate_key in E. rewrite decide_True by done. simpl. lia.
      * apply isDuplicate_false in E. rewrite decide_False by done. simpl. lia.
    + replace (j - k) with 0 by lia. replace (j - S k) with 0 by lia.
      replace (k <? j)%nat with false by (symmetry; apply Nat.ltb_ge; lia).
      cbn [take andb]. rewrite filter_nil. simpl. lia.
Qed.

(** X18.  Why the index list has to be freed of repetitions: the detection
    pushes a position once for every earlier record that carries the same
    key, so the second record of a class is pushed once, the third twice, and
    so on. *)
Theorem X18_position_pushed_once_per_earlier_duplicate
    (rows : list DataRow) (j : nat) (x : DataRow) :
  rows !! j = Some x →
  length (filter (λ e, e = j) (indicesToDelete rows))
  = length (filter (λ o, key o = key x) (take j rows)).
Proof.
  intros Hx. unfold indicesToDelete, detect, forEach.
  rewrite (outer_loop_count rows j x rows Hx 0 ([], [])).
  by rewrite Nat.sub_0_r.
Qed.

Lemma X18_position_pushed_once_per_earlier_duplicate_witness :
  length (filter (λ e, e = 2) (indicesToDelete [rowA; rowB; rowA])) = 2.
Proof.
  rewrite (X18_position_pushed_once_per_earlier_duplicate
             [rowA; rowB; rowA] 2 rowA); reflexivity.
Defined.

Lemma AtScale_violationCallback_empty ua element i w :
  AtScale.violationCallback ua element i ("", w)
  = ("",
     AtScale.mkWorld
       (AtScale.sheetData w ++ map (dataRow "" ua element) (Axe.nodes element))
       (AtScale.files w)).
Proof.
  unfold AtScale.violationCallback. cbn [fst snd].
  rewrite (bool_decide_eq_false_2 ("" = "loc/warwick-pizza/")) by discriminate.
  rewrite (bool_decide_eq_false_2 ("" = "loc/catering-inquiry")) by discriminate.
  rewrite (bool_decide_eq_true_2 ("" = "")) by reflexivity.
  by rewrite pushNodes_app.
Qed.

Lemma AtScale_loop_empty_slug ua violations : ∀ i w,
  let r := forEach_from (AtScale.violationCallback ua) i violations ("", w) in
  r.1 = ""
  ∧ AtScale.sheetData r.2 = AtScale.sheetData w ++ flatten "" ua violations
  ∧ AtScale.files r.2 = AtScale.files w.
Proof.
  induction violations as [|element violations IH]; intros i w.
  - simpl. by rewrite app_nil_r.
  - cbn [forEach_from]. rewrite AtScale_violationCallback_empty.
    destruct (IH (S i)
                (AtScale.mkWorld
                   (AtScale.sheetData w ++ map (dataRow "" ua element) (Axe.nodes element))
                   (AtScale.files w))) as (Hs & Hd & Hf).
    cbv zeta. rewrite Hs, Hd, Hf. cbn [AtScale.sheetData AtScale.files].
    by rewrite flatten_cons, <- (assoc_L (++)).
Qed.

(** X19.  at-scale: a visit of the empty slug (the home page) writes no
    file, whatever its scan holds: the writer is guarded by the truth value
    of the slug.  Its records are appended to the module-level array all the
    same, and the test passes or fails as for any other page. *)
Theorem X19_atscale_home_page_writes_nothing
    (ua : string) (violations : list Axe.Result) (w : AtScale.World) :
  let r := AtScale.visit "" ua violations w in
  AtScale.files r.1 = AtScale.files w
  ∧ AtScale.sheetData r.1 = AtScale.sheetData w ++ flatten "" ua violations
  ∧ r.2 = expectNoViolations violations.
Proof.
  destruct (AtScale_loop_empty_slug ua violations 0 w) as (_ & Hd & Hf).
  unfold AtScale.visit, forEach. cbn [fst snd]. done.
Qed.
